(** * manajemen_mahasiswa: records, store, search and sort algorithms

    A shallow embedding of [management_mahasiswa.py] (classes [Person],
    [Mahasiswa], [DataManager], [SearchAlgorithms], [SortAlgorithms]) and
    the properties its specification states about them.

    Conventions of the embedding.
    - A Python [str] is a [string]: a sequence of code points below 256.
      Comparison of strings is Python's: lexicographic on code points.
    - A Python list used as an array is a [list] read with [!!] and written
      with [aset]; both are partial, [None] standing for the [IndexError]
      Python raises out of range.
    - A [while] loop whose termination is not structural carries a fuel
      argument and yields [None] when the fuel is used up; the theorems show
      that the fuel handed over by the caller is never used up. *)

From Stdlib Require Import String Ascii ZArith List Permutation Sorted Lia Bool.
From stdpp Require Import base option list sorting strings gmap.
From stdpp Require Import pretty.

Local Open Scope nat_scope.

(** ** Strings as Python has them *)

Module PyStr.

(** [s1 < s2], [s1 > s2] and [s1 <= s2] on [str]. *)
Definition lt (a b : string) : bool := String.ltb a b.
Definition gt (a b : string) : bool := String.ltb b a.
Definition le (a b : string) : bool := String.leb a b.

(** [str.lower] on one code point: A-Z and the upper-case letters of the
    Latin-1 block (192-222 without the multiplication sign 215) move up
    by 32. *)
Definition lower_char (c : ascii) : ascii :=
  let n := N_of_ascii c in
  if ((65 <=? n) && (n <=? 90) || (192 <=? n) && (n <=? 222) && negb (n =? 215))%N
  then ascii_of_N (n + 32) else c.

Fixpoint lower (s : string) : string :=
  match s with
  | EmptyString => EmptyString
  | String c s' => String (lower_char c) (lower s')
  end.

(** [str.isspace] on one code point: 9-13, 28-32, 133 and 160. *)
Definition is_space (c : ascii) : bool :=
  let n := N_of_ascii c in
  ((9 <=? n) && (n <=? 13) || (28 <=? n) && (n <=? 32) || (n =? 133) || (n =? 160))%N.

Fixpoint lstrip (s : string) : string :=
  match s with
  | EmptyString => EmptyString
  | String c s' => if is_space c then lstrip s' else s
  end.

(** [rstrip]: a white-space character is dropped when everything after it
    has been dropped. *)
Fixpoint rstrip (s : string) : string :=
  match s with
  | EmptyString => EmptyString
  | String c s' =>
      match rstrip s' with
      | EmptyString => if is_space c then EmptyString else String c EmptyString
      | t => String c t
      end
  end.

Definition strip (s : string) : string := rstrip (lstrip s).

(** Truth value of a [str]: the empty string is false. *)
Definition truthy (s : string) : bool :=
  match s with EmptyString => false | _ => true end.

Fixpoint is_prefix (p s : string) : bool :=
  match p, s with
  | EmptyString, _ => true
  | String a p', String b s' => if Ascii.eqb a b then is_prefix p' s' else false
  | String _ _, EmptyString => false
  end.

(** [p in s] for two strings: [p] occurs in [s] as a contiguous block. *)
Fixpoint contains (p s : string) : bool :=
  is_prefix p s ||
  match s with
  | EmptyString => false
  | String _ s' => contains p s'
  end.

(** [\d] on code points below 256 is 0-9. *)
Definition is_digit (c : ascii) : bool :=
  let n := N_of_ascii c in ((48 <=? n) && (n <=? 57))%N.

Fixpoint all_digits (s : string) : bool :=
  match s with
  | EmptyString => true
  | String c s' => is_digit c && all_digits s'
  end.

(** What is left of [s] after the longest run of digits at its start. *)
Fixpoint skip_digits (s : string) : string :=
  match s with
  | EmptyString => EmptyString
  | String c s' => if is_digit c then skip_digits s' else s
  end.

Definition newline : ascii := ascii_of_N 10.

(** [re.match(r'^\d+$', s)] as a truth value: at least one digit, then the
    end of the string, where [$] also accepts one newline before the
    end. *)
Definition match_digits (s : string) : bool :=
  match s with
  | EmptyString => false
  | String c _ =>
      is_digit c &&
      match skip_digits s with
      | EmptyString => true
      | String d EmptyString => Ascii.eqb d newline
      | _ => false
      end
  end.

End PyStr.

(** ** Records *)

(** An instance of [Mahasiswa]: the attributes [_id], [_nama] (inherited
    from [Person]) and [_nim]. *)
Record Mahasiswa : Type := mkMahasiswa {
  id : Z;
  nama : string;
  nim : string
}.

(** The key the sorts compare, written inline in the source at every
    comparison: [x.nama.lower() if by == 'nama' else x.nim]. *)
Definition sort_key (by_ : string) (x : Mahasiswa) : string :=
  if String.eqb by_ "nama" then PyStr.lower (nama x) else nim x.

(** ** Arrays *)

(** [a[i] = v]: raises [IndexError] out of range. *)
Definition aset {A} (a : list A) (i : nat) (v : A) : option (list A) :=
  if decide (i < length a) then Some (<[i:=v]> a) else None.

(** [a[i], a[j] = a[j], a[i]]: the right-hand side is read first, then
    [a[i]] and [a[j]] are written in this order. *)
Definition swap {A} (a : list A) (i j : nat) : option (list A) :=
  y ← a !! j;
  x ← a !! i;
  a' ← aset a i y;
  aset a' j x.

(** A [for] loop over a range whose body may raise. *)
Fixpoint for_each {S} (body : S → nat → option S) (s : S) (r : list nat) : option S :=
  match r with
  | [] => Some s
  | i :: r' => s' ← body s i; for_each body s' r'
  end.

(** [a[i]] for a Python integer [i]: a negative index counts from the end. *)
Definition index {A} (a : list A) (i : Z) : option A :=
  if decide (0 ≤ i)%Z then a !! Z.to_nat i
  else if decide (- Z.of_nat (length a) ≤ i)%Z then a !! Z.to_nat (Z.of_nat (length a) + i)
  else None.

(** ** class SortAlgorithms *)

Module SortAlgorithms.

(** Body of the inner loop of [bubble_sort]. *)
Definition bubble_step (by_ : string) (sorted_data : list Mahasiswa) (j : nat)
  : option (list Mahasiswa) :=
  x ← sorted_data !! j;
  y ← sorted_data !! (j + 1);
  let a := sort_key by_ x in
  let b := sort_key by_ y in
  if PyStr.gt a b then swap sorted_data j (j + 1) else Some sorted_data.

Definition bubble_pass (by_ : string) (n : nat) (sorted_data : list Mahasiswa) (i : nat)
  : option (list Mahasiswa) :=
  for_each (bubble_step by_) sorted_data (seq 0 (n - i - 1)).

Definition bubble_sort (data : list Mahasiswa) (by_ : string) : option (list Mahasiswa) :=
  let sorted_data := data in
  let n := length sorted_data in
  for_each (bubble_pass by_ n) sorted_data (seq 0 n).

(** Body of the inner loop of [selection_sort]: the state is [min_idx]. *)
Definition selection_step (by_ : string) (sorted_data : list Mahasiswa) (min_idx j : nat)
  : option nat :=
  x ← sorted_data !! min_idx;
  y ← sorted_data !! j;
  let a := sort_key by_ x in
  let b := sort_key by_ y in
  Some (if PyStr.gt a b then j else min_idx).

Definition selection_pass (by_ : string) (n : nat) (sorted_data : list Mahasiswa) (i : nat)
  : option (list Mahasiswa) :=
  min_idx ← for_each (selection_step by_ sorted_data) i (seq (i + 1) (n - (i + 1)));
  swap sorted_data i min_idx.

Definition selection_sort (data : list Mahasiswa) (by_ : string) : option (list Mahasiswa) :=
  let sorted_data := data in
  let n := length sorted_data in
  for_each (selection_pass by_ n) sorted_data (seq 0 n).

(** The [while j >= 0] loop of [insertion_sort]. The loop variable [j]
    runs from [i - 1] down to [-1]; the argument [k] here is [j + 1], so
    that [k = 0] is the exit [j < 0], the element read is [a[k - 1]] and
    the element written is [a[k]]. The result is the array and [j + 1]. *)
Fixpoint insertion_shift (by_ : string) (key : Mahasiswa) (sorted_data : list Mahasiswa)
    (k : nat) : option (list Mahasiswa * nat) :=
  match k with
  | 0 => Some (sorted_data, 0)
  | S j =>
      x ← sorted_data !! j;
      let a := sort_key by_ x in
      let b := sort_key by_ key in
      if PyStr.gt a b then
        sd ← aset sorted_data (j + 1) x;
        insertion_shift by_ key sd j
      else Some (sorted_data, S j)
  end.

Definition insertion_pass (by_ : string) (sorted_data : list Mahasiswa) (i : nat)
  : option (list Mahasiswa) :=
  key ← sorted_data !! i;
  r ← insertion_shift by_ key sorted_data i;
  aset r.1 r.2 key.

Definition insertion_sort (data : list Mahasiswa) (by_ : string) : option (list Mahasiswa) :=
  let sorted_data := data in
  for_each (insertion_pass by_) sorted_data (seq 1 (length sorted_data - 1)).

(** The [while] loop of [_merge], on the indices [i] and [j]. *)
Fixpoint merge_loop (fuel : nat) (by_ : string) (left right result : list Mahasiswa)
    (i j : nat) : option (list Mahasiswa * nat * nat) :=
  if decide (i < length left ∧ j < length right) then
    match fuel with
    | 0 => None
    | S fuel' =>
        x ← left !! i;
        y ← right !! j;
        let a := sort_key by_ x in
        let b := sort_key by_ y in
        if PyStr.le a b
        then merge_loop fuel' by_ left right (result ++ [x]) (i + 1) j
        else merge_loop fuel' by_ left right (result ++ [y]) i (j + 1)
    end
  else Some (result, i, j).

Definition _merge (left right : list Mahasiswa) (by_ : string) : option (list Mahasiswa) :=
  r ← merge_loop (length left + length right) by_ left right [] 0 0;
  let '(result, i, j) := r in
  Some ((result ++ drop i left) ++ drop j right).

(** [merge_sort]; one unit of fuel per level of recursion. *)
Fixpoint merge_sort_rec (fuel : nat) (data : list Mahasiswa) (by_ : string)
  : option (list Mahasiswa) :=
  if decide (length data ≤ 1) then Some data
  else
    match fuel with
    | 0 => None
    | S fuel' =>
        let mid := length data / 2 in
        left ← merge_sort_rec fuel' (take mid data) by_;
        right ← merge_sort_rec fuel' (drop mid data) by_;
        _merge left right by_
    end.

Definition merge_sort (data : list Mahasiswa) (by_ : string) : option (list Mahasiswa) :=
  merge_sort_rec (length data) data by_.

(** The [while j >= gap] loop of [shell_sort]; the result is the array
    and [j]. *)
Fixpoint shell_shift (fuel : nat) (by_ : string) (gap : nat) (temp : Mahasiswa)
    (sorted_data : list Mahasiswa) (j : nat) : option (list Mahasiswa * nat) :=
  if decide (gap ≤ j) then
    match fuel with
    | 0 => None
    | S fuel' =>
        x ← sorted_data !! (j - gap);
        let a := sort_key by_ x in
        let b := sort_key by_ temp in
        if PyStr.gt a b then
          sd ← aset sorted_data j x;
          shell_shift fuel' by_ gap temp sd (j - gap)
        else Some (sorted_data, j)
    end
  else Some (sorted_data, j).

(** Body of [for i in range(gap, n)]. *)
Definition shell_insert (by_ : string) (gap : nat) (sorted_data : list Mahasiswa) (i : nat)
  : option (list Mahasiswa) :=
  temp ← sorted_data !! i;
  r ← shell_shift i by_ gap temp sorted_data i;
  aset r.1 r.2 temp.

(** The [while gap > 0] loop. *)
Fixpoint shell_gaps (fuel : nat) (by_ : string) (n : nat) (sorted_data : list Mahasiswa)
    (gap : nat) : option (list Mahasiswa) :=
  if decide (0 < gap) then
    match fuel with
    | 0 => None
    | S fuel' =>
        sd ← for_each (shell_insert by_ gap) sorted_data (seq gap (n - gap));
        shell_gaps fuel' by_ n sd (gap / 2)
    end
  else Some sorted_data.

Definition shell_sort (data : list Mahasiswa) (by_ : string) : option (list Mahasiswa) :=
  let sorted_data := data in
  let n := length sorted_data in
  shell_gaps n by_ n sorted_data (n / 2).

End SortAlgorithms.

(** ** class SearchAlgorithms *)

Module SearchAlgorithms.

Definition linear_search (data : list Mahasiswa) (keyword by_ : string) : list Mahasiswa :=
  let keyword_lower := PyStr.lower keyword in
  foldl (fun results mhs =>
           let value := if String.eqb by_ "nama" then PyStr.lower (nama mhs) else nim mhs in
           if PyStr.contains keyword_lower (PyStr.lower value)
           then results ++ [mhs] else results)
        [] data.

(** The built-in [sorted(data, key=...)]: a stable sort that compares
    keys with [<] only, here by insertion from the right. *)
Fixpoint sorted_insert (key : Mahasiswa → string) (x : Mahasiswa) (l : list Mahasiswa)
  : list Mahasiswa :=
  match l with
  | [] => [x]
  | y :: l' => if PyStr.lt (key y) (key x) then y :: sorted_insert key x l' else x :: l
  end.

Definition sorted (data : list Mahasiswa) (key : Mahasiswa → string) : list Mahasiswa :=
  foldr (sorted_insert key) [] data.

(** The [while low <= high] loop of [binary_search]. The inner option is
    Python's [Optional[Mahasiswa]]. *)
Fixpoint binary_search_loop (fuel : nat) (sorted_data : list Mahasiswa) (nim_ : string)
    (low high : Z) : option (option Mahasiswa) :=
  if decide (low ≤ high)%Z then
    match fuel with
    | 0 => None
    | S fuel' =>
        let mid := ((low + high) `div` 2)%Z in
        m ← index sorted_data mid;
        let mid_nim := nim m in
        if String.eqb mid_nim nim_ then Some (Some m)
        else if PyStr.lt mid_nim nim_
             then binary_search_loop fuel' sorted_data nim_ (mid + 1)%Z high
             else binary_search_loop fuel' sorted_data nim_ low (mid - 1)%Z
    end
  else Some None.

Definition binary_search (data : list Mahasiswa) (nim_ : string) : option (option Mahasiswa) :=
  let sorted_data := sorted data nim in
  let low := 0%Z in
  let high := (Z.of_nat (length sorted_data) - 1)%Z in
  binary_search_loop (length sorted_data) sorted_data nim_ low high.

Definition sequential_search (data : list Mahasiswa) (keyword : string) : list Mahasiswa :=
  linear_search data keyword "nama".

End SearchAlgorithms.

(** ** The interpreter state, exceptions and JSON documents *)

(** A document as [json.load] returns it and [json.dump] accepts it
    (numbers other than integers are left out). *)
#[local] Unset Elimination Schemes.
Inductive json : Type :=
  | JNull
  | JBool (b : bool)
  | JInt (z : Z)
  | JStr (s : string)
  | JList (l : list json)
  | JDict (d : gmap string json).
#[local] Set Elimination Schemes.

Inductive exn : Type :=
  | ValueError (msg : string)
  | KeyError (key : string)
  | TypeError
  | IndexError
  | Exception (msg : string) (cause : exn).

(** What the methods of [DataManager] read and write: the class variable
    [Mahasiswa._total_mahasiswa], the list [self._data], and the file at
    [self._file_path], that is the document it holds ([None]: no such file)
    together with the number of times it has been written. Opening and
    writing the file never fail in this model, and a document that is
    written is the document read back. *)
Record World : Type := mkWorld {
  total_mahasiswa : Z;
  data_ : list Mahasiswa;
  file : option json;
  writes : nat
}.

Inductive outcome (A : Type) : Type :=
  | Return (a : A)
  | Raise (e : exn).
Arguments Return {A} a.
Arguments Raise {A} e.

(** A computation that reads and writes the [World] and returns or raises;
    the state it leaves behind is kept in both cases. *)
Definition M (A : Type) : Type := World → outcome A * World.

Definition ret {A} (a : A) : M A := fun w => (Return a, w).
Definition raise {A} (e : exn) : M A := fun w => (Raise e, w).
Definition bind {A B} (m : M A) (f : A → M B) : M B :=
  fun w => match m w with
           | (Return a, w') => f a w'
           | (Raise e, w') => (Raise e, w')
           end.
(** [try: m except Exception as e: h e]. *)
Definition try_except {A} (m : M A) (h : exn → M A) : M A :=
  fun w => match m w with
           | (Return a, w') => (Return a, w')
           | (Raise e, w') => h e w'
           end.
Definition get_world : M World := fun w => (Return w, w).
Definition modify (f : World → World) : M unit := fun w => (Return tt, f w).
Definition lift {A} (o : outcome A) : M A := fun w => (o, w).

#[export] Instance M_ret : MRet M := @ret.
#[export] Instance M_bind : MBind M := fun A B f m => bind m f.

Fixpoint mapM {A B} (f : A → M B) (l : list A) : M (list B) :=
  match l with
  | [] => ret []
  | x :: l' => y ← f x; ys ← mapM f l'; ret (y :: ys)
  end.

Definition set_total (z : Z) (w : World) : World :=
  mkWorld z (data_ w) (file w) (writes w).
Definition set_data (d : list Mahasiswa) (w : World) : World :=
  mkWorld (total_mahasiswa w) d (file w) (writes w).
Definition write_file (doc : json) (w : World) : World :=
  mkWorld (total_mahasiswa w) (data_ w) (Some doc) (S (writes w)).

(** ** class Person, class Mahasiswa *)

(** [Mahasiswa.__init__], which runs [Person.__init__] first: both
    attributes are stored as given, the id is the counter plus one and the
    counter moves up by one. *)
Definition Mahasiswa_init (nama_ nim_ : string) : M Mahasiswa :=
  w ← get_world;
  let self := mkMahasiswa (total_mahasiswa w + 1) nama_ nim_ in
  modify (set_total (total_mahasiswa w + 1));;
  ret self.

(** The setter of the property [nama] of [Person]. *)
Definition set_nama (self : Mahasiswa) (value : string) : outcome Mahasiswa :=
  if negb (PyStr.truthy (PyStr.strip value))
  then Raise (ValueError "Nama tidak boleh kosong")
  else Return (mkMahasiswa (id self) value (nim self)).

(** The setter of the property [nim] of [Mahasiswa]. *)
Definition set_nim (self : Mahasiswa) (value : string) : outcome Mahasiswa :=
  if negb (PyStr.match_digits value)
  then Raise (ValueError "NIM harus berupa angka")
  else Return (mkMahasiswa (id self) (nama self) value).

Definition to_dict (self : Mahasiswa) : json :=
  JDict (<["id" := JInt (id self)]> (<["nama" := JStr (nama self)]> (<["nim" := JStr (nim self)]> ∅))).

(** [data[key]] on a dictionary. *)
Definition getitem (d : gmap string json) (key : string) : M json :=
  match d !! key with
  | Some v => ret v
  | None => raise (KeyError key)
  end.

(** The record type keeps strings for the name and the registration number
    and an integer for the id; a document with a value of another type
    there is outside the model and is turned down with [TypeError]. *)
Definition as_str (v : json) : M string :=
  match v with JStr s => ret s | _ => raise TypeError end.
Definition as_int (v : json) : M Z :=
  match v with JInt z => ret z | _ => raise TypeError end.

(** [Mahasiswa.from_dict]: the constructor runs on [data['nama']] and
    [data['nim']], then the id is overwritten with [data['id']]. *)
Definition from_dict (data : json) : M Mahasiswa :=
  match data with
  | JDict d =>
      v1 ← getitem d "nama";
       v2 ← getitem d "nim";
       nama_ ← as_str v1;
       nim_ ← as_str v2;
       mhs ← Mahasiswa_init nama_ nim_;
       v3 ← getitem d "id";
       id_ ← as_int v3;
       ret (mkMahasiswa id_ (nama mhs) (nim mhs))
  | _ => raise TypeError
  end.

(** ** class DataManager *)

Module DataManager.

(** [for item in data] on a document: a list yields its elements, a
    dictionary its keys, a string its characters. *)
Definition iterate (doc : json) : M (list json) :=
  match doc with
  | JList l => ret l
  | JDict d => ret (JStr <$> (map_to_list d).*1)
  | JStr s => ret ((fun c => JStr (String c EmptyString)) <$> list_ascii_of_string s)
  | _ => raise TypeError
  end.

(** [max(ids, default=0)]. *)
Definition max_default (ids : list Z) : Z :=
  match ids with
  | [] => 0%Z
  | z :: ids' => foldl Z.max z ids'
  end.

Definition simpan_ke_file : M bool :=
  try_except
    (w ← get_world;
     let data_to_save := to_dict <$> data_ w in
     modify (write_file (JList data_to_save));;
     ret true)
    (fun e => raise (Exception "Gagal menyimpan ke file: " e)).

Definition baca_dari_file : M bool :=
  try_except
    (w ← get_world;
     match file w with
     | Some data =>
         items ← iterate data;
         l ← mapM from_dict items;
         modify (set_data l);;
         modify (set_total (max_default (id <$> l)));;
         ret true
     | None => ret true
     end)
    (fun e => raise (Exception "Gagal membaca file: " e)).

Definition tambah (mahasiswa : Mahasiswa) : M unit :=
  w ← get_world;
  modify (set_data (data_ w ++ [mahasiswa]));;
   simpan_ke_file;;
   ret tt.

Definition get_by_index (index_ : Z) : M (option Mahasiswa) :=
  w ← get_world;
  if decide (0 ≤ index_ < Z.of_nat (length (data_ w)))%Z
   then ret (index (data_ w) index_)
   else ret None.

Definition get_all : M (list Mahasiswa) :=
  w ← get_world; ret (data_ w).

Definition get_count : M nat :=
  w ← get_world; ret (length (data_ w)).

(** [self._data[index].attr = value] through the setter [setter]: the
    object in the list is changed in place when the setter returns. *)
Definition setattr_at (index_ : Z) (setter : Mahasiswa → string → outcome Mahasiswa)
    (value : string) : M unit :=
  w ← get_world;
  match index (data_ w) index_ with
   | Some obj =>
       obj' ← lift (setter obj value);
       modify (set_data (<[Z.to_nat index_ := obj']> (data_ w)))
   | None => raise IndexError
   end.

Definition edit (index_ : Z) (nama_ nim_ : string) : M unit :=
  w ← get_world;
  if decide (0 ≤ index_ < Z.of_nat (length (data_ w)))%Z
   then
     setattr_at index_ set_nama nama_;;
     setattr_at index_ set_nim nim_;;
     simpan_ke_file;;
     ret tt
   else ret tt.

Definition hapus (index_ : Z) : M unit :=
  w ← get_world;
  if decide (0 ≤ index_ < Z.of_nat (length (data_ w)))%Z
   then
     modify (set_data (delete (Z.to_nat index_) (data_ w)));;
     simpan_ke_file;;
     ret tt
   else ret tt.

End DataManager.

(** ** Notions the properties are stated with *)

(** The two keys of the specification and the value of [by] that selects
    each of them. *)
Inductive Key : Type := ByName | ByNim.

Definition by_arg (k : Key) : string :=
  match k with ByName => "nama" | ByNim => "nim" end.

(** The value compared under each key: the name without regard to case,
    the registration number as it is. *)
Definition key_of (k : Key) (x : Mahasiswa) : string :=
  match k with ByName => PyStr.lower (nama x) | ByNim => nim x end.

(** The document [item] holds the record [r]: it is a dictionary whose
    entries [id], [nama] and [nim] are those of [r] (it may have others). *)
Definition decodes (item : json) (r : Mahasiswa) : Prop :=
  ∃ d : gmap string json,
    item = JDict d ∧
    d !! "id" = Some (JInt (id r)) ∧
    d !! "nama" = Some (JStr (nama r)) ∧
    d !! "nim" = Some (JStr (nim r)).

(** One construction after the other, for a list of names and
    registration numbers. *)
Definition construct_all (args : list (string * string)) : M (list Mahasiswa) :=
  mapM (fun p => Mahasiswa_init p.1 p.2) args.

(** The field searched under each key. *)
Definition field_of (k : Key) (x : Mahasiswa) : string :=
  match k with ByName => nama x | ByNim => nim x end.

Definition str_le (a b : string) : Prop := PyStr.le a b = true.

(** [x] comes no later than [y] under the comparison of [by_]. *)
Definition key_le (by_ : string) : relation Mahasiswa :=
  fun x y => str_le (sort_key by_ x) (sort_key by_ y).

(** Non-decreasing order: every element is below every later one. *)
Definition ordered (k : Key) (l : list Mahasiswa) : Prop :=
  StronglySorted (fun x y => str_le (key_of k x) (key_of k y)) l.

(** Stability: the records of each key value come out in the order they
    went in. *)
Definition stable (k : Key) (input output : list Mahasiswa) : Prop :=
  ∀ v : string,
    filter (fun x => key_of k x = v) output = filter (fun x => key_of k x = v) input.

(** [p] occurs in [s]. *)
Definition substring (p s : string) : Prop :=
  ∃ pre post : string, s = String.append pre (String.append p post).

(** ** Notions the proofs are stated with *)

#[export] Instance key_le_dec (by_ : string) (x y : Mahasiswa) : Decision (key_le by_ x y) :=
  decide (PyStr.le (sort_key by_ x) (sort_key by_ y) = true).

(** The transposition of the positions [i] and [j]. *)
Definition transp (i j k : nat) : nat :=
  if decide (k = i) then j else if decide (k = j) then i else k.

(** What holds before pass [i] of a sort that grows a sorted suffix: the
    last [i] elements are in order and dominate the others. *)
Definition suffix_done (by_ : string) (data : list Mahasiswa) (i : nat)
    (a : list Mahasiswa) : Prop :=
  ∃ u s, a = u ++ s ∧ length s = i ∧ StronglySorted (key_le by_) s ∧
         (∀ x y, x ∈ u → y ∈ s → key_le by_ x y) ∧ a ≡ₚ data.

(** What holds before pass [i] of a sort that grows a sorted prefix: the
    first [i] elements are below everything that comes after them. *)
Definition prefix_done (by_ : string) (data : list Mahasiswa) (i : nat)
    (a : list Mahasiswa) : Prop :=
  a ≡ₚ data ∧
  ∀ p q x y, p < i → p ≤ q → a !! p = Some x → a !! q = Some y → key_le by_ x y.

(** What holds before pass [i] of [insertion_sort]: the first [i]
    elements are in order. *)
Definition prefix_sorted (by_ : string) (data : list Mahasiswa) (i : nat)
    (a : list Mahasiswa) : Prop :=
  a ≡ₚ data ∧ StronglySorted (key_le by_) (take i a).

(** The five sorts of the class. *)
Definition sort_algorithms : list (list Mahasiswa → string → option (list Mahasiswa)) :=
  [SortAlgorithms.bubble_sort; SortAlgorithms.selection_sort;
   SortAlgorithms.insertion_sort; SortAlgorithms.merge_sort;
   SortAlgorithms.shell_sort].

(** Records the examples use. *)
Module Samples.
Definition budi : Mahasiswa := mkMahasiswa 1 "Budi" "300".
Definition budi2 : Mahasiswa := mkMahasiswa 2 "budi" "200".
Definition andi : Mahasiswa := mkMahasiswa 3 "Andi" "100".
End Samples.

(** Unfolds the monad of [M] so that a computation applied to a world
    reduces. *)
Ltac run_M :=
  unfold mbind, M_bind, mret, M_ret, bind, ret, raise, get_world, modify, lift,
    try_except; simpl.

(** ** Further notions *)

(** Stability under the comparison of [by_]: the records of each key value
    come out in the order they went in. *)
Definition stable_by (by_ : string) (input output : list Mahasiswa) : Prop :=
  ∀ v : string,
    filter (fun x => sort_key by_ x = v) output = filter (fun x => sort_key by_ x = v) input.

(** ** Regular expressions of the form [^[class]{lo,hi}$] *)

Module Re.

(** Consumes exactly [k] characters of the class and returns the rest. *)
Fixpoint take_class (cls : ascii → bool) (k : nat) (s : string) : option string :=
  match k with
  | 0 => Some s
  | S k' =>
      match s with
      | EmptyString => None
      | String c s' => if cls c then take_class cls k' s' else None
      end
  end.

(** [$]: the end of the string, or one newline before the end. *)
Definition at_end (rest : string) : bool :=
  match rest with
  | EmptyString => true
  | String c EmptyString => Ascii.eqb c PyStr.newline
  | _ => false
  end.

(** [re.match(r'^[class]{lo,hi}$', s)] as a truth value: some number of
    repetitions between [lo] and [hi] leads to [$]. *)
Definition match_repeat (cls : ascii → bool) (lo hi : nat) (s : string) : bool :=
  existsb (fun k => match take_class cls k s with
                    | Some rest => at_end rest
                    | None => false
                    end)
          (seq lo (hi + 1 - lo)).

End Re.

(** [[A-Za-z]]. *)
Definition is_letter (c : ascii) : bool :=
  let n := N_of_ascii c in
  ((65 <=? n) && (n <=? 90) || (97 <=? n) && (n <=? 122))%N.

(** [[A-Za-z\s\.]]. *)
Definition name_char (c : ascii) : bool :=
  is_letter c || PyStr.is_space c || (N_of_ascii c =? 46)%N.

(** [[a-zA-Z0-9_]]. *)
Definition username_char (c : ascii) : bool :=
  is_letter c || PyStr.is_digit c || (N_of_ascii c =? 95)%N.

(** [Mahasiswa.validate_nim], a static method. *)
Definition Mahasiswa_validate_nim (nim_ : string) : bool :=
  Re.match_repeat PyStr.is_digit 9 12 nim_.

(** ** class Validator *)

Module Validator.

Definition validate_nama (nama_ : string) : bool * string :=
  if Re.match_repeat name_char 3 50 nama_ then (true, EmptyString)
  else (false, "Nama harus 3-50 karakter, hanya boleh huruf dan spasi").

Definition validate_nim (nim_ : string) : bool * string :=
  if Re.match_repeat PyStr.is_digit 9 12 nim_ then (true, EmptyString)
  else (false, "NIM harus 9-12 digit angka").

Definition validate_username (username : string) : bool :=
  Re.match_repeat username_char 3 20 username.

Definition validate_password (password : string) : bool :=
  if decide (String.length password < 6) then false else true.

End Validator.

(** ** class AuthSystem *)

(** The attributes [_users] and [logged_in_user]. *)
Record AuthState : Type := mkAuth {
  users : gmap string string;
  logged_in_user : option string
}.

Module AuthSystem.
Section hash.
(** [hashlib.sha256(password.encode()).hexdigest()], left open. *)
Variable _hash_password : string → string.

(** [__init__]. *)
Definition init : AuthState :=
  mkAuth (<["operator" := _hash_password "opt23"]>
            (<["admin" := _hash_password "admin123"]> ∅))
         None.

(** [login]; nothing in its [try] raises here. *)
Definition login (username password : string) (self : AuthState) : bool * AuthState :=
  if negb (Validator.validate_username username) then (false, self)
  else
    let hashed_password := _hash_password password in
    match users self !! username with
    | Some h =>
        if String.eqb h hashed_password
        then (true, mkAuth (users self) (Some username))
        else (false, self)
    | None => (false, self)
    end.

Definition logout (self : AuthState) : AuthState := mkAuth (users self) None.

Definition is_logged_in (self : AuthState) : bool :=
  match logged_in_user self with Some _ => true | None => false end.

End hash.
End AuthSystem.

(** Every character of [s] is in the class. *)
Fixpoint all_chars (cls : ascii → bool) (s : string) : bool :=
  match s with
  | EmptyString => true
  | String c s' => cls c && all_chars cls s'
  end.

(** The string of one newline. *)
Definition nl : string := String PyStr.newline EmptyString.

(** ** Notions about the store *)

(** The file holds the list of the store. *)
Definition synced (w : World) : Prop :=
  file w = Some (JList (to_dict <$> data_ w)).

(** No two records of the store have one registration number. *)
Definition unique_nims (w : World) : Prop := NoDup (nim <$> data_ w).


(** ** class AplikasiManajemenMahasiswa: what the forms do to the store *)

(** What a handler shows at its end: the argument of [st.error],
    [st.warning], [st.info] or [st.success]. [StErrorExn p e] is
    [st.error(p + str(e))] for a caught exception [e]. The [st.rerun()]
    that follows a success is not part of the model. *)
Inductive notice : Type :=
  | StError (msg : string)
  | StErrorExn (prefix : string) (e : exn)
  | StWarning (msg : string)
  | StInfo (msg : string)
  | StSuccess (msg : string).

(** A [for] loop over a list whose body is a computation of the store. *)
Fixpoint for_M {A} (body : A → M unit) (l : list A) : M unit :=
  match l with
  | [] => ret tt
  | x :: l' => body x;; for_M body l'
  end.

(** [enumerate(data)]. *)
Definition enumerate {A} (data : list A) : list (nat * A) := imap pair data.

(** [sorted(l, reverse=True)] on integers, by insertion. *)
Fixpoint sorted_reverse_insert (x : Z) (l : list Z) : list Z :=
  match l with
  | [] => [x]
  | y :: l' => if decide (x < y)%Z then y :: sorted_reverse_insert x l' else x :: l
  end.

Definition sorted_reverse (l : list Z) : list Z := foldr sorted_reverse_insert [] l.

Module App.
Import DataManager.

(** The branch [if submitted] of [_show_input_form]. *)
Definition input_form_submit (nama_ nim_ : string) : M notice :=
  try_except
    (let '(valid_nama, msg_nama) := Validator.validate_nama nama_ in
     let '(valid_nim, msg_nim) := Validator.validate_nim nim_ in
     if negb valid_nama then ret (StError msg_nama)
     else if negb valid_nim then ret (StError msg_nim)
     else
       all ← get_all;
       let existing_nim := existsb (fun mhs => String.eqb (nim mhs) nim_) all in
       if existing_nim then ret (StError "NIM sudah terdaftar!")
       else
         mhs ← Mahasiswa_init nama_ nim_;
         tambah mhs;;
         simpan_ke_file;;
         ret (StSuccess (String.append "Data " (String.append nama_ " berhasil ditambahkan!"))))
    (fun e => ret (StErrorExn "Terjadi error: " e)).

(** [_show_edit_form] with the record at [index] selected and the form
    submitted. *)
Definition edit_form_submit (index_ : nat) (new_nama new_nim : string) : M notice :=
  data ← get_all;
  match data with
  | [] => ret (StInfo "Belum ada data untuk diedit")
  | _ =>
      try_except
        (let '(valid_nama, msg_nama) := Validator.validate_nama new_nama in
         let '(valid_nim, msg_nim) := Validator.validate_nim new_nim in
         if negb valid_nama then ret (StError msg_nama)
         else if negb valid_nim then ret (StError msg_nim)
         else
           let existing_nim :=
             existsb (fun im => negb (Nat.eqb im.1 index_) && String.eqb (nim im.2) new_nim)
                     (enumerate data) in
           if existing_nim then ret (StError "NIM sudah digunakan oleh mahasiswa lain!")
           else
             edit (Z.of_nat index_) new_nama new_nim;;
             simpan_ke_file;;
             ret (StSuccess "Data berhasil diupdate!"))
        (fun e => ret (StErrorExn "Terjadi error: " e))
  end.

(** The button of [_show_delete], with the positions ticked. *)
Definition delete_selected (selected_indices : list Z) : M notice :=
  try_except
    (match selected_indices with
     | [] => ret (StWarning "Pilih minimal satu data untuk dihapus")
     | _ =>
         for_M hapus (sorted_reverse selected_indices);;
         simpan_ke_file;;
         ret (StSuccess (String.append "Berhasil menghapus "
                (String.append (pretty (length selected_indices)) " data!")))
     end)
    (fun e => ret (StErrorExn "Error saat menghapus: " e)).

(** The loop of the import over the records decoded. *)
Fixpoint import_loop (imported_data : list Mahasiswa) (existing_nims : gset string)
    (added_count : nat) : M nat :=
  match imported_data with
  | [] => ret added_count
  | mhs :: rest =>
      if decide (nim mhs ∉ existing_nims) then
        tambah mhs;;
        import_loop rest (existing_nims ∪ {[nim mhs]}) (added_count + 1)
      else import_loop rest existing_nims added_count
  end.

(** The import of [_show_export_import] for an uploaded document, with the
    button pressed. *)
Definition import_data (data : json) : M notice :=
  try_except
    (match data with
     | JList items =>
         imported_data ← mapM from_dict items;
         all ← get_all;
         let existing_nims : gset string := list_to_set (nim <$> all) in
         added_count ← import_loop imported_data existing_nims 0;
         simpan_ke_file;;
         ret (StSuccess (String.append "Berhasil mengimpor "
                (String.append (pretty added_count) " data baru!")))
     | _ => ret (StError "Format file tidak valid!")
     end)
    (fun e => ret (StErrorExn "Error membaca file: " e)).

Definition sample_data : list (string * string) :=
  [("Azka Insan Robbani", "24101140099");
   ("Bagus ardiansyah", "241011401958");
   ("Fathur Rachman", "241011401713");
   ("Tumpal Sinaga", "241011400087");
   ("Vina Aulia", "241011401650");
   ("Satria Apriza Fajar", "241011400103");
   ("Davrielle saddad", "241011400085");
   ("JANDRI HARTAT GEA", "241012402295");
   ("Walman pangaribuan", "241011400094");
   ("Rafli", "24011400075");
   ("Jason Cornelius Chandra", "241011401866");
   ("Ahmad Rasyid", "241011402663");
   ("Ferda Ayi Sukaesih Sutanto", "241011400068");
   ("M. Ikram Maulana", "241011402896");
   ("Nazril Supriyadi", "241011400091");
   ("Ade jahwa aulia", "241011402829");
   ("Maulana ikhsan fadhillah", "241011400092");
   ("Dea Amellya", "241011400089");
   ("Risqi Eko Trianto", "241011402427");
   ("Rizki Ramadani", "241011400098");
   ("muhammad alif fajriansyah", "241011402197");
   ("dzaki ramadhan", "241011400097");
   ("Servatius Hasta Kristanto", "241011400076");
   ("Ahmad Firdaus", "241011401761");
   ("Ade sofyan", "241011402338");
   ("Dimas Ahmad", "241011402835");
   ("Adam Darmansyah", "241011401470");
   ("Muhammad Noer Alam P", "241011400079");
   ("Azmi Al Fahriza", "241011403269");
   ("Ahmad Irfan", "241011402053");
   ("Gregorius Gilbert Ieli Sarjana", "241011402382")].

Definition _load_sample_data : M notice :=
  try_except
    (n ← get_count;
     for_M (fun _ : nat => hapus 0) (seq 0 n);;
     for_M (fun p : string * string =>
              let '(nama_, nim_) := p in
              mhs ← Mahasiswa_init nama_ nim_;
              tambah mhs)
           sample_data;;
     simpan_ke_file;;
     ret (StSuccess "Data sample berhasil dimuat!"))
    (fun e => ret (StErrorExn "Error: " e)).

End App.

(** ** Notions about the forms *)

(** [l] without the elements whose position, counted from [i], is in
    [sel]. *)
Fixpoint remove_from {A} (sel : list Z) (i : Z) (l : list A) : list A :=
  match l with
  | [] => []
  | x :: l' =>
      if decide (i ∈ sel) then remove_from sel (i + 1) l'
      else x :: remove_from sel (i + 1) l'
  end.

(** [l] without the elements at the positions [sel]. *)
Definition remove_positions {A} (sel : list Z) (l : list A) : list A :=
  remove_from sel 0 l.

(** What one [hapus] does to the list. *)
Definition hapus_list {A} (d : list A) (i : Z) : list A :=
  if decide (0 ≤ i < Z.of_nat (length d))%Z then delete (Z.to_nat i) d else d.

(** * Properties *)

(** ** Order of strings *)

Section string_order.

Lemma ascii_compare_refl c : Ascii.compare c c = Eq.
Proof. unfold Ascii.compare. apply N.compare_refl. Qed.

Lemma string_compare_refl s : String.compare s s = Eq.
Proof. induction s as [|c s IH]; simpl; [done|]. by rewrite ascii_compare_refl. Qed.

Lemma ascii_compare_lt_trans a b c :
  Ascii.compare a b = Lt → Ascii.compare b c = Lt → Ascii.compare a c = Lt.
Proof. unfold Ascii.compare. rewrite !N.compare_lt_iff. lia. Qed.

Lemma string_compare_lt_trans s1 : ∀ s2 s3,
  String.compare s1 s2 = Lt → String.compare s2 s3 = Lt → String.compare s1 s3 = Lt.
Proof.
  induction s1 as [|a s1 IH]; intros [|b s2] [|c s3]; simpl; try done.
  destruct (Ascii.compare a b) eqn:Hab; try done;
    destruct (Ascii.compare b c) eqn:Hbc; try done; intros H1 H2.
  - apply Ascii.compare_eq_iff in Hab, Hbc. subst.
    rewrite ascii_compare_refl. eauto.
  - apply Ascii.compare_eq_iff in Hab. subst. by rewrite Hbc.
  - apply Ascii.compare_eq_iff in Hbc. subst. by rewrite Hab.
  - by rewrite (ascii_compare_lt_trans a b c).
Qed.

Lemma gt_false_le a b : PyStr.gt a b = false ↔ PyStr.le a b = true.
Proof.
  unfold PyStr.gt, PyStr.le, String.ltb, String.leb.
  rewrite (String.compare_antisym a b).
  destruct (String.compare b a); simpl; naive_solver.
Qed.

Lemma gt_true_le a b : PyStr.gt a b = true → PyStr.le b a = true.
Proof. unfold PyStr.gt, PyStr.le, String.ltb, String.leb. by destruct (String.compare b a). Qed.

Lemma gt_true_not_le a b : PyStr.gt a b = true ↔ PyStr.le a b = false.
Proof.
  pose proof (gt_false_le a b) as [H1 H2].
  destruct (PyStr.gt a b), (PyStr.le a b); split; intros; try done;
    [by specialize (H2 eq_refl) | by specialize (H1 eq_refl)].
Qed.

#[export] Instance str_le_refl : Reflexive str_le.
Proof. intros s. unfold str_le, PyStr.le, String.leb. by rewrite string_compare_refl. Qed.

#[export] Instance str_le_trans : Transitive str_le.
Proof.
  intros a b c. unfold str_le, PyStr.le, String.leb.
  destruct (String.compare a b) eqn:Hab; try done;
    destruct (String.compare b c) eqn:Hbc; try done; intros _ _.
  - apply String.compare_eq_iff in Hab, Hbc. subst. by rewrite string_compare_refl.
  - apply String.compare_eq_iff in Hab. subst. by rewrite Hbc.
  - apply String.compare_eq_iff in Hbc. subst. by rewrite Hab.
  - by rewrite (string_compare_lt_trans a b c).
Qed.

#[export] Instance str_le_total : Total str_le.
Proof. intros a b. apply String.leb_total. Qed.

#[export] Instance str_le_antisymm : AntiSymm (=) str_le.
Proof. intros a b. apply String.leb_antisym. Qed.

#[export] Instance key_le_trans by_ : Transitive (key_le by_).
Proof. intros x y z. unfold key_le. apply str_le_trans. Qed.

#[export] Instance key_le_refl by_ : Reflexive (key_le by_).
Proof. intros x. apply str_le_refl. Qed.

#[export] Instance key_le_total by_ : Total (key_le by_).
Proof. intros x y. apply str_le_total. Qed.

Lemma sort_key_by_arg k x : sort_key (by_arg k) x = key_of k x.
Proof. by destruct k. Qed.

Lemma ordered_key_le k l : StronglySorted (key_le (by_arg k)) l ↔ ordered k l.
Proof.
  unfold ordered, key_le.
  split; induction 1 as [|x l' ? IH Hx]; constructor; try done;
    eapply Forall_impl; try exact Hx; intros y; simpl;
    by rewrite !sort_key_by_arg.
Qed.

End string_order.

(** ** Arrays *)

Section arrays.
Context {A : Type}.
Implicit Types (a l : list A) (i j : nat) (x y : A).

Lemma aset_Some a i v : i < length a → aset a i v = Some (<[i:=v]> a).
Proof. intros Hi. unfold aset. by rewrite decide_True. Qed.

Lemma swap_Some a i j x y :
  a !! i = Some x → a !! j = Some y →
  swap a i j = Some (<[j:=x]> (<[i:=y]> a)).
Proof.
  intros Hi Hj. unfold swap. rewrite Hi, Hj. simpl.
  rewrite aset_Some by by eapply lookup_lt_Some. simpl.
  rewrite aset_Some; [done|]. rewrite length_insert. by eapply lookup_lt_Some.
Qed.

Lemma swap_lookup a i j x y k :
  a !! i = Some x → a !! j = Some y →
  <[j:=x]> (<[i:=y]> a) !! k = a !! transp i j k.
Proof.
  intros Hi Hj. unfold transp.
  pose proof (lookup_lt_Some _ _ _ Hi). pose proof (lookup_lt_Some _ _ _ Hj).
  destruct (decide (k = j)) as [->|Hkj].
  - rewrite list_lookup_insert_eq by by rewrite length_insert.
    case_decide; by subst.
  - rewrite list_lookup_insert_ne by done.
    destruct (decide (k = i)) as [->|Hki].
    + by rewrite list_lookup_insert_eq.
    + by rewrite list_lookup_insert_ne.
Qed.

Lemma transp_inj i j : Inj (=) (=) (transp i j).
Proof. intros k1 k2. unfold transp. repeat case_decide; congruence. Qed.

Lemma swap_Permutation a i j x y :
  a !! i = Some x → a !! j = Some y → <[j:=x]> (<[i:=y]> a) ≡ₚ a.
Proof.
  intros Hi Hj. apply Permutation_inj. split.
  - by rewrite !length_insert.
  - exists (transp i j). split; [apply transp_inj|].
    intros k. by apply swap_lookup.
Qed.

Lemma swap_middle l x y l' :
  swap (l ++ x :: y :: l') (length l) (length l + 1) = Some (l ++ y :: x :: l').
Proof.
  erewrite swap_Some.
  - rewrite insert_app_r_alt by lia. rewrite Nat.sub_diag. simpl.
    rewrite insert_app_r_alt by lia.
    by replace (length l + 1 - length l) with 1 by lia.
  - by apply list_lookup_middle.
  - rewrite lookup_app_r by lia.
    by replace (length l + 1 - length l) with 1 by lia.
Qed.

End arrays.

(** ** The five sorts *)

Section sorts.
Import SortAlgorithms.
Variable by_ : string.
Implicit Types (a l data : list Mahasiswa) (x y : Mahasiswa).

Notation "x ⪯ y" := (key_le by_ x y) (at level 70).

Lemma gt_key_le x y :
  PyStr.gt (sort_key by_ x) (sort_key by_ y) = true → y ⪯ x.
Proof. apply gt_true_le. Qed.

Lemma not_gt_key_le x y :
  PyStr.gt (sort_key by_ x) (sort_key by_ y) = false → x ⪯ y.
Proof. apply gt_false_le. Qed.

(** *** bubble_sort *)

Lemma bubble_step_middle l x y rest :
  bubble_step by_ (l ++ x :: y :: rest) (length l) =
  Some (if PyStr.gt (sort_key by_ x) (sort_key by_ y)
        then l ++ y :: x :: rest else l ++ x :: y :: rest).
Proof.
  unfold bubble_step.
  rewrite (list_lookup_middle l _ x (length l)) by done. simpl.
  rewrite lookup_app_r by lia.
  replace (length l + 1 - length l) with 1 by lia. simpl.
  destruct (PyStr.gt _ _); [apply swap_middle|done].
Qed.

(** [m] steps of the inner loop from position [length l], where [x]
    dominates [l]: the largest element of the stretch travels to its
    end. *)
Lemma bubble_inner m : ∀ l x rest,
  m ≤ length rest → Forall (λ z, z ⪯ x) l →
  ∃ l' x',
    for_each (bubble_step by_) (l ++ x :: rest) (seq (length l) m)
      = Some (l' ++ x' :: drop m rest) ∧
    length l' = length l + m ∧
    Forall (λ z, z ⪯ x') l' ∧
    l' ++ [x'] ≡ₚ l ++ x :: take m rest.
Proof.
  induction m as [|m IH]; intros l x rest Hm Hl.
  - exists l, x. simpl. rewrite drop_0. split_and!; [done|lia|done|].
    by rewrite take_0.
  - destruct rest as [|y rest]; simpl in Hm; [lia|].
    cbn [seq for_each]. rewrite bubble_step_middle. cbn [mbind option_bind].
    destruct (PyStr.gt (sort_key by_ x) (sort_key by_ y)) eqn:Hgt.
    + simpl.
      destruct (IH (l ++ [y]) x rest) as (l' & x' & Hrun & Hlen & Hdom & Hperm).
      { lia. }
      { apply Forall_app. split; [done|]. repeat constructor. by apply gt_key_le. }
      rewrite length_app in Hrun, Hlen. simpl in Hrun, Hlen.
      replace (length l + 1) with (S (length l)) in Hrun by lia.
      rewrite <-app_assoc in Hrun. simpl in Hrun.
      exists l', x'. split_and!; [done|lia|done|].
      rewrite Hperm, <-app_assoc. simpl.
      apply Permutation_app_head. constructor.
    + simpl.
      destruct (IH (l ++ [x]) y rest) as (l' & x' & Hrun & Hlen & Hdom & Hperm).
      { lia. }
      { apply Forall_app. split.
        - eapply Forall_impl; [exact Hl|]. intros z Hz. simpl in Hz.
          etrans; [exact Hz|]. by apply not_gt_key_le.
        - repeat constructor. by apply not_gt_key_le. }
      rewrite length_app in Hrun, Hlen. simpl in Hrun, Hlen.
      replace (length l + 1) with (S (length l)) in Hrun by lia.
      rewrite <-app_assoc in Hrun. simpl in Hrun.
      exists l', x'. split_and!; [done|lia|done|].
      by rewrite Hperm, <-app_assoc.
Qed.

Lemma bubble_pass_ok data n i a :
  length data = n → i < n → suffix_done by_ data i a →
  ∃ a', bubble_pass by_ n a i = Some a' ∧ suffix_done by_ data (S i) a'.
Proof.
  intros Hn Hi (u & s & -> & Hs & Hsort & Hdom & Hperm).
  assert (length u = n - i) as Hu.
  { apply Permutation_length in Hperm. rewrite length_app in Hperm. lia. }
  destruct u as [|x u]; simpl in Hu; [lia|].
  destruct (bubble_inner (n - i - 1) [] x (u ++ s)) as (l' & x' & Hrun & Hlen & Hl' & Hp).
  { rewrite length_app. lia. }
  { constructor. }
  simpl in Hrun, Hlen, Hp.
  rewrite drop_app_length' in Hrun by lia.
  rewrite take_app_length' in Hp by lia.
  exists (l' ++ x' :: s). split; [done|].
  exists l', (x' :: s). split_and!; [done|simpl; lia| | |].
  - constructor; [done|]. apply Forall_forall. intros y Hy.
    apply Hdom; [|done]. rewrite <-Hp. set_solver.
  - intros z y Hz Hy. apply elem_of_cons in Hy as [->|Hy].
    + by eapply Forall_forall in Hl'.
    + apply Hdom; [|done]. rewrite <-Hp. set_solver.
  - rewrite <-Hperm, <-Hp, <-app_assoc. done.
Qed.

Lemma bubble_outer data n cnt : ∀ i a,
  length data = n → i + cnt = n → suffix_done by_ data i a →
  ∃ a', for_each (bubble_pass by_ n) a (seq i cnt) = Some a' ∧ suffix_done by_ data n a'.
Proof.
  induction cnt as [|cnt IH]; intros i a Hn Hi Hinv.
  - exists a. split; [done|]. by replace n with i by lia.
  - destruct (bubble_pass_ok data n i a) as (a1 & Hrun & Hinv1); [done|lia|done|].
    destruct (IH (S i) a1) as (a' & Hrun' & Hinv'); [done|lia|done|].
    exists a'. split; [|done]. simpl. by rewrite Hrun.
Qed.

Lemma suffix_done_init data : suffix_done by_ data 0 data.
Proof.
  exists data, []. rewrite app_nil_r. split_and!; try done; [constructor|set_solver].
Qed.

Lemma suffix_done_final data a :
  suffix_done by_ data (length data) a → data ≡ₚ a ∧ StronglySorted (key_le by_) a.
Proof.
  intros (u & s & -> & Hs & Hsort & _ & Hperm).
  assert (u = []) as ->.
  { apply Permutation_length in Hperm. rewrite length_app in Hperm.
    apply nil_length_inv. lia. }
  done.
Qed.

Lemma bubble_sort_correct data :
  ∃ out, bubble_sort data by_ = Some out ∧
         data ≡ₚ out ∧ StronglySorted (key_le by_) out.
Proof.
  destruct (bubble_outer data (length data) (length data) 0 data)
    as (out & Hrun & Hinv); [done|lia|apply suffix_done_init|].
  exists out. split; [done|]. by apply suffix_done_final.
Qed.

(** *** selection_sort *)

Lemma selection_step_eq a m j xm y :
  a !! m = Some xm → a !! j = Some y →
  selection_step by_ a m j =
  Some (if PyStr.gt (sort_key by_ xm) (sort_key by_ y) then j else m).
Proof. intros Hm Hj. unfold selection_step. by rewrite Hm, Hj. Qed.

(** The inner loop: [min_idx] ends on an element that no element from
    [i] on is below. *)
Lemma selection_scan a i cnt : ∀ j m xm,
  a !! m = Some xm → i ≤ m → i ≤ j → j + cnt = length a →
  (∀ q y, i ≤ q < j → a !! q = Some y → xm ⪯ y) →
  ∃ m' xm',
    for_each (selection_step by_ a) m (seq j cnt) = Some m' ∧
    a !! m' = Some xm' ∧ i ≤ m' ∧
    (∀ q y, i ≤ q → a !! q = Some y → xm' ⪯ y).
Proof.
  induction cnt as [|cnt IH]; intros j m xm Hm Him Hij Hj Hmin.
  - exists m, xm. split_and!; try done.
    intros q y Hq Hy. apply (Hmin q); [|done].
    apply lookup_lt_Some in Hy. lia.
  - destruct (lookup_lt_is_Some_2 a j) as [y Hy]; [lia|].
    cbn [seq for_each]. rewrite (selection_step_eq a m j xm y) by done.
    cbn [mbind option_bind].
    destruct (PyStr.gt (sort_key by_ xm) (sort_key by_ y)) eqn:Hgt.
    + apply (IH (S j) j y); [done|done|lia|lia|].
      intros q z Hq Hz. destruct (decide (q = j)) as [->|].
      * by simplify_eq.
      * trans xm; [by apply gt_key_le|]. apply (Hmin q); [lia|done].
    + apply (IH (S j) m xm); [done|done|lia|lia|].
      intros q z Hq Hz. destruct (decide (q = j)) as [->|].
      * simplify_eq. by apply not_gt_key_le.
      * apply (Hmin q); [lia|done].
Qed.

(** On a stretch that [a[m]] is not above, the inner loop leaves
    [min_idx] where it is. *)
Lemma selection_scan_keep a cnt : ∀ j m xm,
  a !! m = Some xm → j + cnt = length a →
  (∀ q y, j ≤ q → a !! q = Some y → xm ⪯ y) →
  for_each (selection_step by_ a) m (seq j cnt) = Some m.
Proof.
  induction cnt as [|cnt IH]; intros j m xm Hm Hj Hle; [done|].
  destruct (lookup_lt_is_Some_2 a j) as [y Hy]; [lia|].
  cbn [seq for_each]. rewrite (selection_step_eq a m j xm y) by done.
  cbn [mbind option_bind].
  assert (PyStr.gt (sort_key by_ xm) (sort_key by_ y) = false) as ->.
  { apply gt_false_le. by apply (Hle j). }
  apply (IH (S j) m xm); [done|lia|]. intros q z Hq. apply Hle. lia.
Qed.

Lemma selection_pass_ok data n i a :
  length data = n → i < n → prefix_done by_ data i a →
  ∃ a', selection_pass by_ n a i = Some a' ∧ prefix_done by_ data (S i) a'.
Proof.
  intros Hn Hi [Hperm Hinv].
  assert (length a = n) as Ha by by rewrite Hperm.
  destruct (lookup_lt_is_Some_2 a i) as [xi Hxi]; [lia|].
  destruct (selection_scan a i (n - (i + 1)) (i + 1) i xi)
    as (m & xm & Hrun & Hm & Him & Hmin); [done|lia|lia|lia| |].
  { intros q y Hq Hy. assert (q = i) as -> by lia. by simplify_eq. }
  unfold selection_pass. rewrite Hrun. cbn [mbind option_bind].
  rewrite (swap_Some a i m xi xm) by done.
  eexists. split; [done|]. split.
  - by rewrite swap_Permutation.
  - intros p q x y Hp Hpq.
    rewrite !(swap_lookup a i m xi xm) by done. intros Hx Hy.
    destruct (decide (p = i)) as [->|Hpi].
    + unfold transp in Hx at 1. rewrite decide_True in Hx by done. simplify_eq.
      apply (Hmin (transp i m q)); [|done].
      unfold transp. repeat case_decide; lia.
    + assert (transp i m p = p) as Htp.
      { unfold transp. repeat case_decide; lia. }
      rewrite Htp in Hx. apply (Hinv p (transp i m q)); [lia| |done|done].
      unfold transp. repeat case_decide; lia.
Qed.

Lemma selection_outer data n cnt : ∀ i a,
  length data = n → i + cnt = n → prefix_done by_ data i a →
  ∃ a', for_each (selection_pass by_ n) a (seq i cnt) = Some a' ∧ prefix_done by_ data n a'.
Proof.
  induction cnt as [|cnt IH]; intros i a Hn Hi Hinv.
  - exists a. split; [done|]. by replace n with i by lia.
  - destruct (selection_pass_ok data n i a) as (a1 & Hrun & Hinv1); [done|lia|done|].
    destruct (IH (S i) a1) as (a' & Hrun' & Hinv'); [done|lia|done|].
    exists a'. split; [|done]. simpl. by rewrite Hrun.
Qed.

(** Order stated on positions is order in the sense of
    [StronglySorted]. *)
Lemma StronglySorted_lookup a :
  (∀ p q x y, p ≤ q → a !! p = Some x → a !! q = Some y → x ⪯ y) ↔
  StronglySorted (key_le by_) a.
Proof.
  split.
  - induction a as [|x a IH]; intros H; constructor.
    + apply IH. intros p q y z Hpq Hy Hz. apply (H (S p) (S q)); [lia|done|done].
    + apply Forall_forall. intros y Hy.
      apply list_elem_of_lookup in Hy as [q Hq].
      apply (H 0 (S q)); [lia|done|done].
  - induction 1 as [|x a Hs IH Hx]; intros p q y z Hpq Hy Hz; [done|].
    destruct p as [|p], q as [|q]; simpl in *; simplify_eq.
    + reflexivity.
    + eapply Forall_forall in Hx; [done|]. by eapply list_elem_of_lookup_2.
    + lia.
    + apply (IH p q); [lia|done|done].
Qed.

Lemma prefix_done_final data a :
  prefix_done by_ data (length data) a → data ≡ₚ a ∧ StronglySorted (key_le by_) a.
Proof.
  intros [Hperm Hinv]. split; [done|].
  apply StronglySorted_lookup. intros p q x y Hpq Hx Hy.
  apply (Hinv p q); try done.
  apply lookup_lt_Some in Hx. by rewrite <-Hperm.
Qed.

Lemma selection_sort_correct data :
  ∃ out, selection_sort data by_ = Some out ∧
         data ≡ₚ out ∧ StronglySorted (key_le by_) out.
Proof.
  destruct (selection_outer data (length data) (length data) 0 data)
    as (out & Hrun & Hinv); [done|lia| |].
  { split; [done|]. intros; lia. }
  exists out. split; [done|]. by apply prefix_done_final.
Qed.

(** On an input that is in order already every pass swaps an element
    with itself. *)
Lemma selection_pass_sorted a n i :
  length a = n → i < n → StronglySorted (key_le by_) a →
  selection_pass by_ n a i = Some a.
Proof.
  intros Hn Hi Hs.
  destruct (lookup_lt_is_Some_2 a i) as [xi Hxi]; [lia|].
  unfold selection_pass.
  rewrite (selection_scan_keep a _ _ i xi); [|done|lia|].
  - cbn [mbind option_bind]. rewrite (swap_Some a i i xi xi) by done.
    by rewrite !(list_insert_id a i xi).
  - intros q y Hq Hy. eapply StronglySorted_lookup; [done| |done..]. lia.
Qed.

Lemma selection_sorted_outer a n cnt : ∀ i,
  length a = n → i + cnt = n → StronglySorted (key_le by_) a →
  for_each (selection_pass by_ n) a (seq i cnt) = Some a.
Proof.
  induction cnt as [|cnt IH]; intros i Hn Hi Hs; [done|].
  cbn [seq for_each]. rewrite selection_pass_sorted by (done || lia).
  cbn [mbind option_bind]. apply IH; [done|lia|done].
Qed.

Lemma selection_sort_sorted_input data :
  StronglySorted (key_le by_) data → selection_sort data by_ = Some data.
Proof. intros Hs. by apply selection_sorted_outer. Qed.

(** *** insertion_sort *)

Lemma insertion_shift_S key a j :
  insertion_shift by_ key a (S j) =
  x ← a !! j;
  if PyStr.gt (sort_key by_ x) (sort_key by_ key)
  then sd ← aset a (j + 1) x; insertion_shift by_ key sd j
  else Some (a, S j).
Proof. done. Qed.

(** The inner loop started with the hole [h] behind [l]: the hole moves
    left past the elements above [key] and stops behind an element that
    is not above it. *)
Lemma insertion_shift_spec key l : ∀ h rest,
  ∃ l1 l2 h',
    l = l1 ++ l2 ∧
    insertion_shift by_ key (l ++ h :: rest) (length l)
      = Some (l1 ++ h' :: l2 ++ rest, length l1) ∧
    Forall (λ z, key ⪯ z) l2 ∧
    (∀ z, last l1 = Some z → z ⪯ key).
Proof.
  induction l as [|x l IH] using rev_ind; intros h rest.
  - exists [], [], h. split_and!; try done.
  - rewrite length_app. simpl. rewrite Nat.add_1_r, insertion_shift_S.
    rewrite <-app_assoc. simpl.
    rewrite (list_lookup_middle l _ x (length l)) by done. cbn [mbind option_bind].
    destruct (PyStr.gt (sort_key by_ x) (sort_key by_ key)) eqn:Hgt.
    + rewrite aset_Some by (rewrite length_app; simpl; lia).
      cbn [mbind option_bind].
      rewrite insert_app_r_alt by lia.
      replace (length l + 1 - length l) with 1 by lia. simpl.
      destruct (IH x (x :: rest)) as (l1 & l2 & h' & -> & Hrun & Hl2 & Hl1).
      exists l1, (l2 ++ [x]), h'. rewrite Hrun. split_and!.
      * by rewrite app_assoc.
      * by rewrite <-app_assoc.
      * apply Forall_app. split; [done|]. repeat constructor. by apply gt_key_le.
      * done.
    + exists (l ++ [x]), [], h. split_and!.
      * by rewrite app_nil_r.
      * rewrite <-app_assoc, length_app. simpl. by rewrite Nat.add_1_r.
      * constructor.
      * intros z. rewrite last_snoc. intros [= <-]. by apply not_gt_key_le.
Qed.

Lemma StronglySorted_last l z x :
  StronglySorted (key_le by_) l → last l = Some z → x ∈ l → x ⪯ z.
Proof.
  destruct l as [|z' l _] using rev_ind; [done|].
  rewrite last_snoc. intros Hs [= ->] Hx.
  apply elem_of_app in Hx as [Hx|Hx].
  - eapply StronglySorted_app_1_elem_of; [done..|set_solver].
  - apply list_elem_of_singleton in Hx as ->. reflexivity.
Qed.

Lemma insertion_pass_ok data i a :
  i < length data → prefix_sorted by_ data i a →
  ∃ a', insertion_pass by_ a i = Some a' ∧ prefix_sorted by_ data (S i) a'.
Proof.
  intros Hi [Hperm Hs].
  assert (length a = length data) as Ha by by rewrite Hperm.
  destruct (lookup_lt_is_Some_2 a i) as [key Hkey]; [lia|].
  pose proof (take_drop_middle a i key Hkey) as Hsplit.
  assert (length (take i a) = i) as Hp by (rewrite length_take_le; lia).
  revert Hsplit Hs Hp. generalize (take i a) (drop (S i) a).
  intros p rest <- Hs Hp. clear Hkey.
  destruct (insertion_shift_spec key p key rest)
    as (l1 & l2 & h' & -> & Hrun & Hl2 & Hl1).
  rewrite Hp in Hrun. rewrite length_app in Hp.
  unfold insertion_pass.
  rewrite (list_lookup_middle _ _ key i) by (by rewrite length_app).
  cbn [mbind option_bind]. rewrite Hrun. cbn [mbind option_bind fst snd].
  rewrite aset_Some by (rewrite length_app; simpl; lia).
  rewrite insert_app_r_alt, Nat.sub_diag by lia. simpl.
  eexists. split; [done|].
  apply StronglySorted_app in Hs as (H12 & Hs1 & Hs2).
  split.
  - rewrite <-Hperm, <-app_assoc.
    apply Permutation_app_head. by rewrite <-Permutation_middle.
  - replace (l1 ++ key :: l2 ++ rest)
      with ((l1 ++ key :: l2) ++ rest) by by rewrite <-app_assoc.
    rewrite take_app_length' by (rewrite length_app; simpl; lia).
    apply StronglySorted_app_2; [|done|by constructor].
    intros x y Hx Hy.
    assert (x ⪯ key) as Hxk.
    { destruct (last l1) as [z|] eqn:Hlast.
      - trans z; [by apply (StronglySorted_last l1)|by apply Hl1].
      - apply last_None in Hlast. subst. set_solver. }
    apply elem_of_cons in Hy as [->|Hy]; [done|].
    trans key; [done|]. by eapply Forall_forall in Hl2.
Qed.

Lemma insertion_outer data cnt : ∀ i a,
  i + cnt = length data → prefix_sorted by_ data i a →
  ∃ a', for_each (insertion_pass by_) a (seq i cnt) = Some a' ∧
        prefix_sorted by_ data (length data) a'.
Proof.
  induction cnt as [|cnt IH]; intros i a Hi Hinv.
  - exists a. split; [done|]. by replace (length data) with i by lia.
  - destruct (insertion_pass_ok data i a) as (a1 & Hrun & Hinv1); [lia|done|].
    destruct (IH (S i) a1) as (a' & Hrun' & Hinv'); [lia|done|].
    exists a'. split; [|done]. simpl. by rewrite Hrun.
Qed.

Lemma prefix_sorted_final data a :
  prefix_sorted by_ data (length data) a → data ≡ₚ a ∧ StronglySorted (key_le by_) a.
Proof.
  intros [Hperm Hs]. split; [done|].
  rewrite take_ge in Hs; [done|]. by rewrite Hperm.
Qed.

Lemma insertion_sort_correct data :
  ∃ out, insertion_sort data by_ = Some out ∧
         data ≡ₚ out ∧ StronglySorted (key_le by_) out.
Proof.
  unfold insertion_sort. destruct data as [|x data].
  - exists []. split_and!; try done. constructor.
  - destruct (insertion_outer (x :: data) (length data) 1 (x :: data))
      as (out & Hrun & Hinv); [done| |].
    { split; [done|]. simpl. rewrite take_0. repeat constructor. }
    exists out. split; [|by apply prefix_sorted_final].
    simpl. by rewrite Nat.sub_0_r.
Qed.

(** *** merge_sort *)

Lemma le_decide x y :
  PyStr.le (sort_key by_ x) (sort_key by_ y) = bool_decide (x ⪯ y).
Proof.
  case_bool_decide as H; unfold key_le, str_le in H; [done|].
  by apply not_true_is_false.
Qed.

(** The loop of [_merge] from the positions [i] and [j] yields what is
    left to merge of the two lists. *)
Lemma merge_loop_spec left right fuel : ∀ result i j,
  (length left - i) + (length right - j) ≤ fuel →
  ∃ r i' j',
    merge_loop fuel by_ left right result i j = Some (r, i', j') ∧
    (r ++ drop i' left) ++ drop j' right
      = result ++ list_merge (key_le by_) (drop i left) (drop j right).
Proof.
  induction fuel as [|fuel IH]; intros result i j Hfuel.
  - exists result, i, j. simpl. rewrite decide_False by lia. split; [done|].
    destruct (decide (length left ≤ i)).
    + rewrite (drop_ge left) by done. by rewrite list_merge_nil_l, app_nil_r.
    + rewrite (drop_ge right) by lia. by rewrite list_merge_nil_r, app_nil_r.
  - simpl. case_decide as Hij.
    + destruct Hij as [Hi Hj].
      destruct (lookup_lt_is_Some_2 left i) as [x Hx]; [done|].
      destruct (lookup_lt_is_Some_2 right j) as [y Hy]; [done|].
      rewrite Hx, Hy. cbn [mbind option_bind].
      rewrite (drop_S left x i), (drop_S right y j) by done.
      rewrite list_merge_cons, le_decide.
      destruct (decide (x ⪯ y)) as [Hle|Hle].
      * rewrite bool_decide_eq_true_2 by done.
        destruct (IH (result ++ [x]) (i + 1) j) as (r & i' & j' & Hrun & Heq); [lia|].
        exists r, i', j'. split; [done|].
        rewrite Heq, <-app_assoc. simpl.
        by rewrite Nat.add_1_r, (drop_S right y j).
      * rewrite bool_decide_eq_false_2 by done.
        destruct (IH (result ++ [y]) i (j + 1)) as (r & i' & j' & Hrun & Heq); [lia|].
        exists r, i', j'. split; [done|].
        rewrite Heq, <-app_assoc. simpl.
        by rewrite Nat.add_1_r, (drop_S left x i).
    + exists result, i, j. split; [done|].
      destruct (decide (length left ≤ i)).
      * rewrite (drop_ge left) by done. by rewrite list_merge_nil_l, app_nil_r.
      * rewrite (drop_ge right) by lia. by rewrite list_merge_nil_r, app_nil_r.
Qed.

Lemma _merge_spec left right :
  _merge left right by_ = Some (list_merge (key_le by_) left right).
Proof.
  unfold _merge.
  destruct (merge_loop_spec left right (length left + length right) [] 0 0)
    as (r & i & j & -> & Heq); [lia|].
  cbn [mbind option_bind]. by rewrite Heq.
Qed.

Lemma merge_sort_rec_S fuel data :
  merge_sort_rec (S fuel) data by_ =
  if decide (length data ≤ 1) then Some data
  else left ← merge_sort_rec fuel (take (length data / 2) data) by_;
       right ← merge_sort_rec fuel (drop (length data / 2) data) by_;
       _merge left right by_.
Proof. done. Qed.

Lemma merge_sort_rec_correct fuel : ∀ data,
  length data ≤ fuel →
  ∃ out, merge_sort_rec fuel data by_ = Some out ∧
         data ≡ₚ out ∧ StronglySorted (key_le by_) out.
Proof.
  assert (∀ data, length data ≤ 1 → StronglySorted (key_le by_) data) as Hsmall.
  { intros [|x [|y data]] Hlen; simpl in Hlen; [repeat constructor..|lia]. }
  induction fuel as [|fuel IH]; intros data Hfuel.
  - exists data. simpl. rewrite decide_True by lia. split_and!; [done..|].
    apply Hsmall. lia.
  - rewrite merge_sort_rec_S. case_decide as Hlen.
    + exists data. split_and!; [done..|]. by apply Hsmall.
    + assert (0 < length data / 2 < length data) as Hmid.
      { split; [apply Nat.div_str_pos|apply Nat.div_lt]; lia. }
      destruct (IH (take (length data / 2) data)) as (l & -> & Hpl & Hsl).
      { rewrite length_take. lia. }
      destruct (IH (drop (length data / 2) data)) as (r & -> & Hpr & Hsr).
      { rewrite length_drop. lia. }
      cbn [mbind option_bind]. rewrite _merge_spec.
      eexists. split_and!; [done| |].
      * by rewrite merge_Permutation, <-Hpl, <-Hpr, take_drop.
      * apply (Sorted_StronglySorted _).
        apply (Sorted_list_merge _); by apply StronglySorted_Sorted.
Qed.

Lemma merge_sort_correct data :
  ∃ out, merge_sort data by_ = Some out ∧
         data ≡ₚ out ∧ StronglySorted (key_le by_) out.
Proof. by apply merge_sort_rec_correct. Qed.

(** The fuel of [merge_sort] is enough with room to spare: more of it
    changes nothing. *)
Lemma merge_sort_rec_fuel fuel1 : ∀ fuel2 data,
  length data ≤ fuel1 → length data ≤ fuel2 →
  merge_sort_rec fuel1 data by_ = merge_sort_rec fuel2 data by_.
Proof.
  induction fuel1 as [|fuel1 IH]; intros fuel2 data H1 H2.
  - destruct fuel2; simpl; by rewrite !decide_True by lia.
  - destruct (decide (length data ≤ 1)) as [Hlen|Hlen].
    + destruct fuel2; simpl; by rewrite !decide_True by lia.
    + destruct fuel2 as [|fuel2]; [lia|].
      rewrite !merge_sort_rec_S, !decide_False by done.
      assert (0 < length data / 2 < length data) as Hmid.
      { split; [apply Nat.div_str_pos|apply Nat.div_lt]; lia. }
      rewrite (IH fuel2 (take _ data)) by (rewrite length_take; lia).
      by rewrite (IH fuel2 (drop _ data)) by (rewrite length_drop; lia).
Qed.

(** *** shell_sort *)

Lemma shell_shift_S fuel gap temp a j :
  shell_shift (S fuel) by_ gap temp a j =
  if decide (gap ≤ j) then
    x ← a !! (j - gap);
    if PyStr.gt (sort_key by_ x) (sort_key by_ temp)
    then sd ← aset a j x; shell_shift fuel by_ gap temp sd (j - gap)
    else Some (a, j)
  else Some (a, j).
Proof. done. Qed.

(** The inner loop for any gap: it comes to an end within the fuel [j],
    and putting [temp] into the hole it leaves gives a permutation. *)
Lemma shell_shift_ok gap temp fuel : ∀ a j,
  0 < gap → j ≤ fuel → j < length a →
  ∃ a' j',
    shell_shift fuel by_ gap temp a j = Some (a', j') ∧
    j' < length a' ∧ <[j':=temp]> a' ≡ₚ <[j:=temp]> a.
Proof.
  induction fuel as [|fuel IH]; intros a j Hgap Hfuel Hj.
  - exists a, j. simpl. by rewrite decide_False by lia.
  - rewrite shell_shift_S. case_decide as Hgj; [|by exists a, j].
    destruct (lookup_lt_is_Some_2 a (j - gap)) as [x Hx]; [lia|].
    rewrite Hx. cbn [mbind option_bind].
    destruct (PyStr.gt _ _); [|by exists a, j].
    rewrite aset_Some by done. cbn [mbind option_bind].
    destruct (IH (<[j:=x]> a) (j - gap)) as (a' & j' & Hrun & Hj' & Hperm);
      [done|lia|rewrite length_insert; lia|].
    exists a', j'. split_and!; [done..|].
    rewrite Hperm.
    rewrite <-(swap_Permutation (<[j:=temp]> a) j (j - gap) temp x).
    + by rewrite list_insert_insert_eq.
    + by apply list_lookup_insert_eq.
    + rewrite list_lookup_insert_ne by lia. done.
Qed.

Lemma shell_insert_ok gap a i :
  0 < gap → i < length a →
  ∃ a', shell_insert by_ gap a i = Some a' ∧ a' ≡ₚ a.
Proof.
  intros Hgap Hi.
  destruct (lookup_lt_is_Some_2 a i) as [temp Htemp]; [done|].
  destruct (shell_shift_ok gap temp i a i) as (a' & j' & Hrun & Hj' & Hperm);
    [done..|].
  unfold shell_insert. rewrite Htemp. cbn [mbind option_bind].
  rewrite Hrun. cbn [mbind option_bind fst snd].
  rewrite aset_Some by done. eexists. split; [done|].
  by rewrite Hperm, list_insert_id.
Qed.

Lemma shell_pass_ok gap cnt : ∀ i a,
  0 < gap → i + cnt ≤ length a →
  ∃ a', for_each (shell_insert by_ gap) a (seq i cnt) = Some a' ∧ a' ≡ₚ a.
Proof.
  induction cnt as [|cnt IH]; intros i a Hgap Hi.
  - by exists a.
  - destruct (shell_insert_ok gap a i) as (a1 & Hrun & Hperm); [done|lia|].
    destruct (IH (S i) a1) as (a' & Hrun' & Hperm'); [done|rewrite Hperm; lia|].
    exists a'. split; [|by rewrite Hperm'].
    cbn [seq for_each]. by rewrite Hrun.
Qed.

(** With the gap 1 the inner loop is the inner loop of
    [insertion_sort]. *)
Lemma shell_shift_1 temp fuel : ∀ a j,
  j ≤ fuel → shell_shift fuel by_ 1 temp a j = insertion_shift by_ temp a j.
Proof.
  induction fuel as [|fuel IH]; intros a j Hj.
  - assert (j = 0) as -> by lia. done.
  - destruct j as [|j]; [done|].
    rewrite shell_shift_S, insertion_shift_S, decide_True by lia.
    replace (S j - 1) with j by lia. replace (j + 1) with (S j) by lia.
    destruct (a !! j) as [x|]; [|done]. cbn [mbind option_bind].
    destruct (PyStr.gt _ _); [|done].
    destruct (aset a (S j) x) as [sd|]; [|done]. cbn [mbind option_bind].
    apply IH. lia.
Qed.

Lemma shell_insert_1 a i : shell_insert by_ 1 a i = insertion_pass by_ a i.
Proof.
  unfold shell_insert, insertion_pass.
  destruct (a !! i) as [temp|]; [|done]. cbn [mbind option_bind].
  by rewrite shell_shift_1.
Qed.

Lemma for_each_ext {S} (f g : S → nat → option S) s r :
  (∀ s i, f s i = g s i) → for_each f s r = for_each g s r.
Proof.
  intros Hfg. revert s. induction r as [|i r IH]; intros s; [done|].
  simpl. rewrite Hfg. destruct (g s i); simpl; auto.
Qed.

(** The pass with the gap 1 is [insertion_sort]. *)
Lemma shell_pass_1 a :
  for_each (shell_insert by_ 1) a (seq 1 (length a - 1)) = insertion_sort a by_.
Proof. unfold insertion_sort. apply for_each_ext, shell_insert_1. Qed.

Lemma shell_gaps_S fuel n a gap :
  shell_gaps (S fuel) by_ n a gap =
  if decide (0 < gap) then
    sd ← for_each (shell_insert by_ gap) a (seq gap (n - gap));
    shell_gaps fuel by_ n sd (gap / 2)
  else Some a.
Proof. done. Qed.

(** The loop over the gaps: every pass keeps the elements, and the last
    one, with the gap 1, puts them in order. *)
Lemma shell_gaps_ok n fuel : ∀ a gap,
  length a = n → 0 < gap ≤ fuel →
  ∃ out, shell_gaps fuel by_ n a gap = Some out ∧
         a ≡ₚ out ∧ StronglySorted (key_le by_) out.
Proof.
  induction fuel as [|fuel IH]; intros a gap Hn Hgap; [lia|].
  rewrite shell_gaps_S, decide_True by lia.
  destruct (decide (gap = 1)) as [->|Hg1].
  - rewrite <-Hn, shell_pass_1.
    destruct (insertion_sort_correct a) as (out & -> & Hperm & Hs).
    cbn [mbind option_bind]. exists out. split; [|done].
    change (1 / 2) with 0. by destruct fuel.
  - destruct (decide (gap ≤ n)) as [Hgn|Hgn].
    + destruct (shell_pass_ok gap (n - gap) gap a) as (sd & -> & Hperm); [lia..|].
      cbn [mbind option_bind].
      assert (0 < gap / 2 < gap) as Hhalf.
      { split; [apply Nat.div_str_pos|apply Nat.div_lt]; lia. }
      destruct (IH sd (gap / 2)) as (out & Hrun & Hperm' & Hs);
        [by rewrite Hperm|lia|].
      exists out. split_and!; [done| |done]. by rewrite <-Hperm', Hperm.
    + replace (n - gap) with 0 by lia. cbn [seq for_each mbind option_bind].
      assert (0 < gap / 2 < gap) as Hhalf.
      { split; [apply Nat.div_str_pos|apply Nat.div_lt]; lia. }
      apply IH; [done|lia].
Qed.

Lemma shell_sort_correct data :
  ∃ out, shell_sort data by_ = Some out ∧
         data ≡ₚ out ∧ StronglySorted (key_le by_) out.
Proof.
  unfold shell_sort.
  destruct (decide (length data ≤ 1)) as [Hlen|Hlen].
  - exists data. split_and!; [|done|].
    + destruct data as [|x [|y data]]; simpl in *; try done; lia.
    + destruct data as [|x [|y data]]; simpl in *; [repeat constructor..|lia].
  - apply shell_gaps_ok; [done|].
    split; [apply Nat.div_str_pos|apply Nat.lt_le_incl, Nat.div_lt]; lia.
Qed.

End sorts.

(** ** C1, C2: what the sorts return *)

Import SortAlgorithms.

(** C1. Each of the five sorts returns, for every list of records and for
    either key, a list that is a permutation of its input and is in
    non-decreasing order of the key. *)
Theorem sorts_return_ordered_permutation (data : list Mahasiswa) (k : Key) :
  Forall (fun sort =>
            ∃ out, sort data (by_arg k) = Some out ∧
                   Permutation data out ∧ ordered k out)
         sort_algorithms.
Proof.
  repeat apply Forall_cons_2; [..|apply Forall_nil_2].
  - destruct (bubble_sort_correct (by_arg k) data) as (out & ? & ? & ?).
    exists out. by rewrite <-ordered_key_le.
  - destruct (selection_sort_correct (by_arg k) data) as (out & ? & ? & ?).
    exists out. by rewrite <-ordered_key_le.
  - destruct (insertion_sort_correct (by_arg k) data) as (out & ? & ? & ?).
    exists out. by rewrite <-ordered_key_le.
  - destruct (merge_sort_correct (by_arg k) data) as (out & ? & ? & ?).
    exists out. by rewrite <-ordered_key_le.
  - destruct (shell_sort_correct (by_arg k) data) as (out & ? & ? & ?).
    exists out. by rewrite <-ordered_key_le.
Qed.

(** C2 as stated fails: two records of equal name change places when the
    first pass swaps the first of them with a smaller record behind the
    second. *)
Lemma selection_sort_not_stable :
  let input := [Samples.budi; Samples.budi2; Samples.andi] in
  let output := [Samples.andi; Samples.budi2; Samples.budi] in
  selection_sort input (by_arg ByName) = Some output ∧
  key_of ByName Samples.budi = key_of ByName Samples.budi2 ∧
  ¬ stable ByName input output.
Proof.
  split_and!; [by vm_compute..|].
  intros Hst. specialize (Hst "budi"). by vm_compute in Hst.
Qed.

(** C2, amended. On an input that is in order of the key already,
    [selection_sort] returns the input itself, so that records of equal
    key keep their places. *)
Theorem selection_sort_stable_on_ordered (data : list Mahasiswa) (k : Key) :
  ordered k data →
  ∃ out, selection_sort data (by_arg k) = Some out ∧ out = data ∧ stable k data out.
Proof.
  intros Hord. exists data. split_and!; [|done..].
  apply selection_sort_sorted_input. by apply ordered_key_le.
Qed.

Lemma selection_sort_stable_on_ordered_witness :
  let data := [Samples.andi; Samples.budi; Samples.budi2] in
  ordered ByName data ∧
  ∃ out, selection_sort data (by_arg ByName) = Some out ∧ out = data ∧
         stable ByName data out.
Proof.
  assert (ordered ByName [Samples.andi; Samples.budi; Samples.budi2]) as Hord.
  { unfold ordered, str_le. repeat constructor. }
  split; [exact Hord|].
  exact (selection_sort_stable_on_ordered _ ByName Hord).
Defined.

(** ** C8: linear_search *)

Section linear_search.
Import SearchAlgorithms.

Lemma lower_char_idemp c : PyStr.lower_char (PyStr.lower_char c) = PyStr.lower_char c.
Proof. destruct c as [[] [] [] [] [] [] [] []]; reflexivity. Qed.

Lemma lower_idemp s : PyStr.lower (PyStr.lower s) = PyStr.lower s.
Proof. induction s as [|c s IH]; simpl; [done|]. by rewrite lower_char_idemp, IH. Qed.

Lemma append_String c s t : String.append (String c s) t = String c (String.append s t).
Proof. reflexivity. Qed.

Lemma append_Empty t : String.append EmptyString t = t.
Proof. reflexivity. Qed.

Lemma is_prefix_spec p : ∀ s,
  PyStr.is_prefix p s = true ↔ ∃ post, s = String.append p post.
Proof.
  induction p as [|a p IH]; intros s; simpl.
  - split; [by exists s|done].
  - destruct s as [|b s].
    + split; [done|]. by intros [post ?].
    + destruct (Ascii.eqb_spec a b) as [->|Hab].
      * rewrite IH. split; intros [post Hpost]; exists post;
          rewrite append_String in *; congruence.
      * split; [done|]. intros [post Hpost].
        rewrite append_String in Hpost. congruence.
Qed.

Lemma contains_spec p s : PyStr.contains p s = true ↔ substring p s.
Proof.
  unfold substring. induction s as [|c s IH]; simpl.
  - rewrite orb_false_r, is_prefix_spec. split.
    + intros [post Hpost]. by exists EmptyString, post.
    + intros ([|??] & post & Hpost).
      * rewrite append_Empty in Hpost. by exists post.
      * by rewrite append_String in Hpost.
  - rewrite orb_true_iff, is_prefix_spec, IH. split.
    + intros [[post Hpost]|(pre & post & Hpost)].
      * by exists EmptyString, post.
      * exists (String c pre), post. by rewrite append_String, Hpost.
    + intros ([|c' pre] & post & Hpost).
      * left. rewrite append_Empty in Hpost. by exists post.
      * right. rewrite append_String in Hpost. exists pre, post. congruence.
Qed.

Lemma contains_empty s : PyStr.contains EmptyString s = true.
Proof. by destruct s. Qed.

(** The loop that appends the matches is a filter. *)
Lemma foldl_append_filter {A} (f : A → bool) (l : list A) : ∀ acc,
  foldl (fun results x => if f x then results ++ [x] else results) acc l
  = acc ++ List.filter f l.
Proof.
  induction l as [|x l IH]; intros acc; simpl.
  - by rewrite app_nil_r.
  - rewrite IH. destruct (f x); [|done]. by rewrite <-app_assoc.
Qed.

Lemma filter_all {A} (f : A → bool) (l : list A) :
  (∀ x, f x = true) → List.filter f l = l.
Proof. intros Hf. induction l as [|x l IH]; simpl; [done|]. by rewrite Hf, IH. Qed.

End linear_search.

(** C8. [linear_search] returns the records whose chosen field has the
    keyword as a substring when both are put in lower case, in the order of
    the input and as often as they occur there; with the empty keyword it
    returns the whole input. [PyStr.contains] is the substring test. *)
Theorem linear_search_filters (data : list Mahasiswa) (keyword : string) (k : Key) :
  SearchAlgorithms.linear_search data keyword (by_arg k)
    = List.filter (fun m => PyStr.contains (PyStr.lower keyword) (PyStr.lower (field_of k m))) data
  ∧ (∀ p s, PyStr.contains p s = true ↔ substring p s)
  ∧ (keyword = EmptyString → SearchAlgorithms.linear_search data keyword (by_arg k) = data).
Proof.
  assert (SearchAlgorithms.linear_search data keyword (by_arg k)
    = List.filter (fun m => PyStr.contains (PyStr.lower keyword) (PyStr.lower (field_of k m)))
        data) as Heq.
  { unfold SearchAlgorithms.linear_search. rewrite foldl_append_filter. simpl.
    destruct k; simpl; [|done].
    induction data as [|m data IH]; simpl; [done|].
    by rewrite lower_idemp, IH. }
  split_and!; [done|apply contains_spec|].
  intros ->. rewrite Heq. apply filter_all. intros m. apply contains_empty.
Qed.

(** ** C5: binary_search *)

Section binary_search.
Import SearchAlgorithms.
Implicit Types (s data : list Mahasiswa) (m : Mahasiswa).

Local Abbreviation nim_le := (key_le (by_arg ByNim)).

Lemma sorted_insert_Permutation x l : sorted_insert nim x l ≡ₚ x :: l.
Proof.
  induction l as [|y l IH]; simpl; [done|].
  destruct (PyStr.lt _ _); [|done]. by rewrite IH, Permutation_swap.
Qed.

Lemma sorted_insert_sorted x l :
  StronglySorted nim_le l → StronglySorted nim_le (sorted_insert nim x l).
Proof.
  induction 1 as [|y l Hs IH Hy]; simpl; [repeat constructor|].
  destruct (PyStr.lt (nim y) (nim x)) eqn:Hlt.
  - constructor; [done|]. rewrite sorted_insert_Permutation.
    constructor; [|done]. by apply (gt_true_le (nim x) (nim y)).
  - assert (nim_le x y) as Hxy by by apply (gt_false_le (nim x) (nim y)).
    constructor; [by constructor|]. constructor; [done|].
    eapply Forall_impl; [exact Hy|]. intros z Hz. by trans y.
Qed.

Lemma sorted_Permutation data : sorted data nim ≡ₚ data.
Proof.
  unfold sorted. induction data as [|x data IH]; simpl; [done|].
  by rewrite sorted_insert_Permutation, IH.
Qed.

Lemma sorted_sorted data : StronglySorted nim_le (sorted data nim).
Proof.
  unfold sorted. induction data as [|x data IH]; simpl; [constructor|].
  by apply sorted_insert_sorted.
Qed.

Lemma binary_search_loop_S fuel s key low high :
  binary_search_loop (S fuel) s key low high =
  if decide (low ≤ high)%Z then
    m ← index s ((low + high) `div` 2);
    if String.eqb (nim m) key then Some (Some m)
    else if PyStr.lt (nim m) key
         then binary_search_loop fuel s key ((low + high) `div` 2 + 1) high
         else binary_search_loop fuel s key low ((low + high) `div` 2 - 1)
  else Some None.
Proof. done. Qed.

(** The loop on a list in order: the positions that hold [key], if any,
    stay between [low] and [high], and the fuel lasts. *)
Lemma binary_search_loop_spec s key fuel : ∀ low high,
  StronglySorted nim_le s →
  (0 ≤ low)%Z → (high < Z.of_nat (length s))%Z →
  (high - low + 1 ≤ Z.of_nat fuel)%Z →
  (∀ p m, s !! p = Some m → nim m = key → (low ≤ Z.of_nat p ≤ high)%Z) →
  ∃ res, binary_search_loop fuel s key low high = Some res ∧
         (∀ m, res = Some m → m ∈ s ∧ nim m = key) ∧
         (res = None → ∀ m, m ∈ s → nim m ≠ key).
Proof.
  intros low high Hs. revert low high.
  assert (∀ low high, ¬ (low ≤ high)%Z →
    (∀ p m, s !! p = Some m → nim m = key → (low ≤ Z.of_nat p ≤ high)%Z) →
    ∀ m, m ∈ s → nim m ≠ key) as Hempty.
  { intros low high Hlh Hin m Hm Hkey.
    apply list_elem_of_lookup in Hm as [p Hp]. specialize (Hin p m Hp Hkey). lia. }
  induction fuel as [|fuel IH]; intros low high Hlow Hhigh Hfuel Hin.
  - exists None. simpl. rewrite decide_False by lia.
    split_and!; [done|done|]. intros _. apply (Hempty low high); [lia|done].
  - rewrite binary_search_loop_S. case_decide as Hlh.
    2:{ exists None. split_and!; [done|done|]. intros _. by apply (Hempty low high). }
    set (mid := ((low + high) `div` 2)%Z).
    assert (low ≤ mid ≤ high)%Z as Hmid.
    { subst mid. split; [apply Z.div_le_lower_bound|apply Z.div_le_upper_bound]; lia. }
    unfold index. rewrite decide_True by lia.
    destruct (lookup_lt_is_Some_2 s (Z.to_nat mid)) as [m Hm]; [lia|].
    rewrite Hm. cbn [mbind option_bind].
    destruct (String.eqb_spec (nim m) key) as [Heq|Hne].
    { exists (Some m). split_and!; [done| |done].
      intros ? [= <-]. split; [|done]. by eapply list_elem_of_lookup_2. }
    destruct (PyStr.lt (nim m) key) eqn:Hlt.
    + apply IH; [lia..|].
      intros p m' Hp Hkey. specialize (Hin p m' Hp Hkey).
      split; [|lia]. destruct (decide (mid + 1 ≤ Z.of_nat p)%Z); [done|].
      exfalso.
      assert (nim_le m' m) as Hle.
      { eapply (StronglySorted_lookup _ s); [done| |exact Hp|exact Hm]. lia. }
      apply (gt_true_not_le key (nim m)) in Hlt.
      change (PyStr.le (nim m') (nim m) = true) in Hle. congruence.
    + apply IH; [lia..|].
      intros p m' Hp Hkey. specialize (Hin p m' Hp Hkey).
      split; [lia|]. destruct (decide (Z.of_nat p ≤ mid - 1)%Z); [done|].
      exfalso.
      assert (nim_le m m') as Hle.
      { eapply (StronglySorted_lookup _ s); [done| |exact Hm|exact Hp]. lia. }
      apply (gt_false_le key (nim m)) in Hlt.
      change (str_le (nim m) (nim m')) in Hle. rewrite Hkey in Hle.
      apply Hne. by apply (anti_symm str_le).
Qed.

Lemma binary_search_spec data key :
  ∃ res, binary_search data key = Some res ∧
         (∀ m, res = Some m → m ∈ data ∧ nim m = key) ∧
         (res = None → ∀ m, m ∈ data → nim m ≠ key).
Proof.
  unfold binary_search.
  destruct (binary_search_loop_spec (sorted data nim) key (length (sorted data nim))
              0 (Z.of_nat (length (sorted data nim)) - 1))
    as (res & Hrun & Hsome & Hnone); [apply sorted_sorted|lia..| |].
  { intros p m Hp _. apply lookup_lt_Some in Hp. lia. }
  exists res. split; [done|]. split.
  - intros m Hm. rewrite <-(sorted_Permutation data). by apply Hsome.
  - intros Hres m Hm. apply Hnone; [done|]. by rewrite sorted_Permutation.
Qed.

End binary_search.

(** C5. [binary_search] comes to an end on every list and every key. What
    it returns is a record of the list whose registration number is the
    key, the whole of it; it returns one exactly when the list has one;
    and whether it returns one is the same for every rearrangement of the
    list. *)
Theorem binary_search_exact (data : list Mahasiswa) (key : string) :
  ∃ res, SearchAlgorithms.binary_search data key = Some res ∧
    (∀ m, res = Some m → m ∈ data ∧ nim m = key) ∧
    (is_Some res ↔ ∃ m, m ∈ data ∧ nim m = key) ∧
    (∀ data', Permutation data data' →
       ∃ res', SearchAlgorithms.binary_search data' key = Some res' ∧
               (is_Some res' ↔ is_Some res)).
Proof.
  assert (∀ (d : list Mahasiswa) res,
    (∀ m, res = Some m → m ∈ d ∧ nim m = key) →
    (res = None → ∀ m, m ∈ d → nim m ≠ key) →
    (is_Some res ↔ ∃ m, m ∈ d ∧ nim m = key)) as Hiff.
  { intros d [m|] Hsome Hnone; split.
    - intros _. exists m. by apply Hsome.
    - by eauto.
    - by intros [??].
    - intros (m & Hm & Hkey). by destruct (Hnone eq_refl m Hm). }
  destruct (binary_search_spec data key) as (res & Hrun & Hsome & Hnone).
  exists res. split_and!; [done|done|by apply Hiff|].
  intros data' Hperm.
  destruct (binary_search_spec data' key) as (res' & Hrun' & Hsome' & Hnone').
  exists res'. split; [done|].
  rewrite (Hiff data res), (Hiff data' res') by done.
  by setoid_rewrite Hperm.
Qed.

(** ** The store *)

Section store.
Import DataManager.
Implicit Types (w : World) (l rs : list Mahasiswa) (m r : Mahasiswa).

Lemma simpan_ke_file_run w :
  simpan_ke_file w = (Return true, write_file (JList (to_dict <$> data_ w)) w).
Proof. done. Qed.

Lemma tambah_run w m :
  tambah m w =
  (Return tt, write_file (JList (to_dict <$> (data_ w ++ [m]))) (set_data (data_ w ++ [m]) w)).
Proof. done. Qed.

Lemma get_by_index_nat w (j : nat) :
  get_by_index (Z.of_nat j) w = (Return (data_ w !! j), w).
Proof.
  unfold get_by_index, index. run_M.
  case_decide as Hj.
  - by rewrite decide_True, Nat2Z.id by lia.
  - rewrite lookup_ge_None_2; [done|]. lia.
Qed.

Lemma hapus_run_valid w index_ :
  (0 ≤ index_ < Z.of_nat (length (data_ w)))%Z →
  hapus index_ w =
  (Return tt,
   write_file (JList (to_dict <$> delete (Z.to_nat index_) (data_ w)))
     (set_data (delete (Z.to_nat index_) (data_ w)) w)).
Proof. intros Hi. unfold hapus. run_M. by rewrite decide_True. Qed.

Lemma hapus_run_invalid w index_ :
  ¬ (0 ≤ index_ < Z.of_nat (length (data_ w)))%Z → hapus index_ w = (Return tt, w).
Proof. intros Hi. unfold hapus. run_M. by rewrite decide_False. Qed.

Lemma lookup_delete_shift {A} (l : list A) (i j : nat) :
  delete i l !! j = l !! (if decide (j < i) then j else S j).
Proof.
  case_decide.
  - by apply list_lookup_delete_lt.
  - apply list_lookup_delete_ge. lia.
Qed.

(** [strip] leaves something exactly when the truth value the setter
    tests is true. *)
Lemma truthy_strip value :
  PyStr.truthy (PyStr.strip value) = true ↔ PyStr.strip value ≠ EmptyString.
Proof. by destruct (PyStr.strip value). Qed.

Lemma set_nama_ok self value :
  PyStr.strip value ≠ EmptyString →
  set_nama self value = Return (mkMahasiswa (id self) value (nim self)).
Proof.
  intros Hv. unfold set_nama.
  by apply truthy_strip in Hv as ->.
Qed.

Lemma set_nama_raises self value :
  PyStr.strip value = EmptyString →
  set_nama self value = Raise (ValueError "Nama tidak boleh kosong").
Proof. intros Hv. unfold set_nama. by rewrite Hv. Qed.

Lemma set_nim_ok self value :
  PyStr.match_digits value = true →
  set_nim self value = Return (mkMahasiswa (id self) (nama self) value).
Proof. intros Hv. unfold set_nim. by rewrite Hv. Qed.

Lemma set_nim_raises self value :
  PyStr.match_digits value = false →
  set_nim self value = Raise (ValueError "NIM harus berupa angka").
Proof. intros Hv. unfold set_nim. by rewrite Hv. Qed.

Lemma index_nonneg {A} (a : list A) (i : Z) :
  (0 ≤ i)%Z → index a i = a !! Z.to_nat i.
Proof. intros Hi. unfold index. by rewrite decide_True. Qed.

Lemma edit_run_nim_raises w index_ nama_ nim_ old :
  (0 ≤ index_ < Z.of_nat (length (data_ w)))%Z →
  data_ w !! Z.to_nat index_ = Some old →
  PyStr.strip nama_ ≠ EmptyString →
  PyStr.match_digits nim_ = false →
  edit index_ nama_ nim_ w =
  (Raise (ValueError "NIM harus berupa angka"),
   set_data (<[Z.to_nat index_ := mkMahasiswa (id old) nama_ (nim old)]> (data_ w)) w).
Proof.
  intros Hi Hold Hnama Hnim. unfold edit, setattr_at. run_M.
  rewrite decide_True by done.
  rewrite !index_nonneg, Hold by lia.
  rewrite set_nama_ok by done. simpl.
  rewrite index_nonneg by lia.
  rewrite list_lookup_insert_eq by lia.
  by rewrite set_nim_raises.
Qed.

Lemma to_dict_decodes m : decodes (to_dict m) m.
Proof.
  unfold to_dict. eexists. split; [reflexivity|].
  split_and!; by simplify_map_eq.
Qed.

Lemma from_dict_run item r w :
  decodes item r →
  from_dict item w = (Return r, set_total (total_mahasiswa w + 1) w).
Proof.
  intros (d & -> & Hid & Hnama & Hnim).
  unfold from_dict, getitem. rewrite Hid, Hnama, Hnim. by destruct r.
Qed.

Lemma mapM_from_dict items rs :
  Forall2 decodes items rs →
  ∀ w, mapM from_dict items w
       = (Return rs, set_total (total_mahasiswa w + Z.of_nat (length rs)) w).
Proof.
  induction 1 as [|item r items rs Hd _ IH]; intros w.
  - simpl. unfold ret, set_total. destruct w; simpl. by rewrite Z.add_0_r.
  - cbn [mapM]. run_M. rewrite (from_dict_run item r) by done.
    rewrite IH. unfold set_total. simpl.
    by replace (total_mahasiswa w + Z.of_nat (S (length rs)))%Z
      with (total_mahasiswa w + 1 + Z.of_nat (length rs))%Z by lia.
Qed.

Lemma baca_dari_file_run w items rs :
  file w = Some (JList items) → Forall2 decodes items rs →
  baca_dari_file w
  = (Return true, mkWorld (max_default (id <$> rs)) rs (file w) (writes w)).
Proof.
  intros Hfile Hdec. unfold baca_dari_file, iterate. run_M.
  rewrite Hfile. rewrite (mapM_from_dict items rs) by done.
  unfold set_total, set_data. simpl. by rewrite Hfile.
Qed.

Lemma baca_dari_file_missing w :
  file w = None → baca_dari_file w = (Return true, w).
Proof. intros Hfile. unfold baca_dari_file. run_M. by rewrite Hfile. Qed.

Lemma foldl_max_ge (l : list Z) : ∀ z,
  (z ≤ foldl Z.max z l)%Z ∧ (∀ y, y ∈ l → (y ≤ foldl Z.max z l)%Z) ∧
  foldl Z.max z l ∈ z :: l.
Proof.
  induction l as [|x l IH]; intros z; simpl.
  - split_and!; [lia| |by left]. by intros y Hy%elem_of_nil.
  - destruct (IH (Z.max z x)) as (H1 & H2 & H3). split_and!.
    + lia.
    + intros y [->|Hy]%elem_of_cons; [lia|by apply H2].
    + apply elem_of_cons in H3 as [H3|H3]; [|by do 2 right].
      rewrite H3. destruct (Z.max_spec z x) as [[_ ->]|[_ ->]];
        [right|]; by left.
Qed.

Lemma max_default_ge ids z : z ∈ ids → (z ≤ max_default ids)%Z.
Proof.
  destruct ids as [|x ids]; [by intros ?%elem_of_nil|]. simpl.
  destruct (foldl_max_ge ids x) as (H1 & H2 & _).
  intros [->|Hz]%elem_of_cons; [done|by apply H2].
Qed.

Lemma max_default_elem ids : ids ≠ [] → max_default ids ∈ ids.
Proof. destruct ids as [|x ids]; [done|]. intros _. apply foldl_max_ge. Qed.

Lemma Mahasiswa_init_run nama_ nim_ w :
  Mahasiswa_init nama_ nim_ w
  = (Return (mkMahasiswa (total_mahasiswa w + 1) nama_ nim_),
     set_total (total_mahasiswa w + 1) w).
Proof. done. Qed.

Lemma construct_all_run args : ∀ w,
  ∃ news,
    construct_all args w
    = (Return news, set_total (total_mahasiswa w + Z.of_nat (length args)) w) ∧
    id <$> news
    = (fun k => (total_mahasiswa w + 1 + Z.of_nat k)%Z) <$> seq 0 (length args).
Proof.
  unfold construct_all.
  induction args as [|[n m] args IH]; intros w.
  - exists []. simpl. unfold ret, set_total. destruct w; simpl.
    by rewrite Z.add_0_r.
  - destruct (IH (set_total (total_mahasiswa w + 1) w)) as (news & Hrun & Hids).
    exists (mkMahasiswa (total_mahasiswa w + 1) n m :: news).
    split.
    + cbn [mapM]. run_M. rewrite Hrun. unfold set_total. simpl.
      by replace (total_mahasiswa w + Z.of_nat (S (length args)))%Z
        with (total_mahasiswa w + 1 + Z.of_nat (length args))%Z by lia.
    + rewrite fmap_cons, Hids. cbn [length seq fmap list_fmap id total_mahasiswa set_total].
      f_equal; [lia|].
      rewrite <-fmap_S_seq, <-list_fmap_compose.
      apply list_fmap_ext. intros _ k _. simpl. lia.
Qed.

End store.

(** ** C3, C4, C6, C7, C9, C10: records and the store *)

Import DataManager.

(** C3. Whatever records the store holds, [simpan_ke_file] writes them and
    a [baca_dari_file] on the file so written, by this store or by another
    one, returns and leaves the same records in the same order: equal ids,
    names and registration numbers. *)
Theorem persist_load_round_trip (w : World) :
  ∃ w1, simpan_ke_file w = (Return true, w1) ∧
        ∀ w', file w' = file w1 →
              ∃ w2, baca_dari_file w' = (Return true, w2) ∧ data_ w2 = data_ w.
Proof.
  eexists. split; [apply simpan_ke_file_run|].
  intros w' Hfile.
  exists (mkWorld (max_default (id <$> data_ w)) (data_ w) (file w') (writes w')).
  split; [|reflexivity].
  apply (baca_dari_file_run w' (to_dict <$> data_ w)); [exact Hfile|].
  apply Forall2_fmap_l, Forall_Forall2_diag, Forall_forall.
  intros m _. apply to_dict_decodes.
Qed.

(** C4 as stated fails: the constructor returns a record for a name of
    blanks and a registration number with a letter in it. *)
Lemma construction_does_not_validate :
  let w := mkWorld 0 [] None 0 in
  PyStr.strip "  " = EmptyString ∧
  PyStr.all_digits "12a" = false ∧
  Mahasiswa_init "  " "12a" w = (Return (mkMahasiswa 1 "  " "12a"), mkWorld 1 [] None 0).
Proof. by vm_compute. Qed.

(** C4, amended. Construction never raises: it stores the name and the
    registration number as they are given and takes the counter plus one
    as id. The two checks are made by the setters: [set_nama] raises a
    [ValueError] exactly for a name that is empty after trimming and
    [set_nim] exactly for a value that [^\d+$] does not match. *)
Theorem construction_stores_setters_validate (nama_ nim_ : string) (w : World) :
  Mahasiswa_init nama_ nim_ w
    = (Return (mkMahasiswa (total_mahasiswa w + 1) nama_ nim_),
       set_total (total_mahasiswa w + 1) w)
  ∧ (∀ self value,
       (PyStr.strip value = EmptyString ∧
        set_nama self value = Raise (ValueError "Nama tidak boleh kosong"))
       ∨ (PyStr.strip value ≠ EmptyString ∧
          set_nama self value = Return (mkMahasiswa (id self) value (nim self))))
  ∧ (∀ self value,
       (PyStr.match_digits value = false ∧
        set_nim self value = Raise (ValueError "NIM harus berupa angka"))
       ∨ (PyStr.match_digits value = true ∧
          set_nim self value = Return (mkMahasiswa (id self) (nama self) value))).
Proof.
  split_and!; [done| |].
  - intros self value. destruct (decide (PyStr.strip value = EmptyString)) as [He|Hne].
    + left. split; [done|]. by apply set_nama_raises.
    + right. split; [done|]. by apply set_nama_ok.
  - intros self value. destruct (PyStr.match_digits value) eqn:Hm.
    + right. split; [done|]. by apply set_nim_ok.
    + left. split; [done|]. by apply set_nim_raises.
Qed.

(** C6. When [baca_dari_file] reads a file that is a list of records [rs],
    it returns with the records in the store and with the counter at the
    largest of their ids (at 0 when there is none), not one above it. Every
    construction that follows takes the counter plus one: the [k]-th one
    from 0 gets the id [max + 1 + k], which is above every id read. *)
Theorem load_sets_counter_to_max (w : World) (items : list json) (rs : list Mahasiswa) :
  file w = Some (JList items) →
  Forall2 decodes items rs →
  ∃ w', baca_dari_file w = (Return true, w') ∧
        data_ w' = rs ∧
        total_mahasiswa w' = max_default (id <$> rs) ∧
        (rs = [] → total_mahasiswa w' = 0%Z) ∧
        (rs ≠ [] → total_mahasiswa w' ∈ id <$> rs) ∧
        (∀ r, r ∈ rs → (id r ≤ total_mahasiswa w')%Z) ∧
        (∀ nama_ nim_, ∃ w'',
           Mahasiswa_init nama_ nim_ w'
           = (Return (mkMahasiswa (total_mahasiswa w' + 1) nama_ nim_), w'')) ∧
        (∀ args, ∃ news w'',
           construct_all args w' = (Return news, w'') ∧
           id <$> news
           = (fun k => (total_mahasiswa w' + 1 + Z.of_nat k)%Z) <$> seq 0 (length args) ∧
           ∀ r new, r ∈ rs → new ∈ news → (id r < id new)%Z).
Proof.
  intros Hfile Hdec. eexists. split; [by apply (baca_dari_file_run w items rs)|].
  cbn [data_ total_mahasiswa].
  assert (∀ r, r ∈ rs → (id r ≤ max_default (id <$> rs))%Z) as Hmax.
  { intros r Hr. apply max_default_ge. by apply list_elem_of_fmap_2. }
  split_and!; try done.
  - by intros ->.
  - intros Hrs. apply max_default_elem. by destruct rs.
  - intros nama_ nim_. eexists. apply Mahasiswa_init_run.
  - intros args.
    destruct (construct_all_run args
                (mkWorld (max_default (id <$> rs)) rs (file w) (writes w)))
      as (news & Hrun & Hids).
    cbn [total_mahasiswa] in Hids.
    exists news. eexists. split_and!; [exact Hrun|exact Hids|].
    intros r new Hr Hnew. apply Hmax in Hr.
    assert (id new ∈ id <$> news) as Hin by by apply list_elem_of_fmap_2.
    rewrite Hids in Hin. apply list_elem_of_fmap in Hin as (k & -> & _). lia.
Qed.

Lemma load_sets_counter_to_max_witness :
  let rs := [mkMahasiswa 4 "Ani" "111"; mkMahasiswa 7 "Budi" "222"] in
  let w := mkWorld 0 [] (Some (JList (to_dict <$> rs))) 1 in
  ∃ w', baca_dari_file w = (Return true, w') ∧
        data_ w' = rs ∧ total_mahasiswa w' = 7%Z.
Proof.
  intros rs w.
  assert (Forall2 decodes (to_dict <$> rs) rs) as Hdec.
  { repeat constructor; apply to_dict_decodes. }
  destruct (load_sets_counter_to_max w (to_dict <$> rs) rs eq_refl Hdec)
    as (w' & Hrun & Hdata & Htotal & _).
  exists w'. split_and!; [exact Hrun|exact Hdata|exact Htotal].
Defined.

(** C7. [hapus] with an index inside the list returns and leaves the list
    without the element at that position: the elements before it stay, the
    later ones move down by one, which is what [get_by_index] then gives
    (after [hapus 0], position 0 gives what was at position 1). With any
    other index it returns without an error and leaves everything as it
    was. *)
Theorem hapus_deletes_or_does_nothing (w : World) (index_ : Z) :
  ((0 ≤ index_ < Z.of_nat (length (data_ w)))%Z →
   ∃ w', hapus index_ w = (Return tt, w') ∧
         data_ w' = take (Z.to_nat index_) (data_ w) ++ drop (S (Z.to_nat index_)) (data_ w) ∧
         length (data_ w') = length (data_ w) - 1 ∧
         ∀ j : nat,
           get_by_index (Z.of_nat j) w'
           = (Return (data_ w !! (if decide (j < Z.to_nat index_) then j else S j)), w'))
  ∧ (¬ (0 ≤ index_ < Z.of_nat (length (data_ w)))%Z →
     hapus index_ w = (Return tt, w)).
Proof.
  split; [|apply hapus_run_invalid].
  intros Hi. eexists. split; [by apply hapus_run_valid|].
  cbn [data_ write_file set_data]. split_and!.
  - apply delete_take_drop.
  - rewrite length_delete; [done|]. apply lookup_lt_is_Some_2. lia.
  - intros j. rewrite get_by_index_nat. cbn [data_ write_file set_data].
    by rewrite lookup_delete_shift.
Qed.

(** C9. [tambah] looks at nothing: two records, also two with one
    registration number, are both stored, each call making the list one
    longer, whatever the store holds already. *)
Theorem tambah_keeps_duplicates (w : World) (r1 r2 : Mahasiswa) :
  nim r1 = nim r2 →
  ∃ w1 w2, tambah r1 w = (Return tt, w1) ∧
           tambah r2 w1 = (Return tt, w2) ∧
           data_ w1 = data_ w ++ [r1] ∧
           data_ w2 = data_ w ++ [r1; r2] ∧
           get_count w1 = (Return (S (length (data_ w))), w1) ∧
           get_count w2 = (Return (S (S (length (data_ w)))), w2).
Proof.
  intros _. do 2 eexists. split_and!; try apply tambah_run.
  - done.
  - cbn [data_ write_file set_data]. by rewrite <-app_assoc.
  - unfold get_count. run_M. rewrite length_app. simpl.
    by rewrite Nat.add_1_r.
  - unfold get_count. run_M. rewrite !length_app. simpl.
    by rewrite !Nat.add_1_r.
Qed.

Lemma tambah_keeps_duplicates_witness :
  let w := mkWorld 0 [] None 0 in
  let r1 := mkMahasiswa 1 "Ani" "123456789" in
  let r2 := mkMahasiswa 2 "Budi" "123456789" in
  ∃ w1 w2, tambah r1 w = (Return tt, w1) ∧ tambah r2 w1 = (Return tt, w2) ∧
           data_ w2 = [r1; r2].
Proof.
  intros w r1 r2.
  destruct (tambah_keeps_duplicates w r1 r2 eq_refl)
    as (w1 & w2 & H1 & H2 & _ & Hdata & _).
  exists w1, w2. split_and!; [exact H1|exact H2|exact Hdata].
Defined.

(** C10. [edit] with an index inside the list, a name that is not empty
    after trimming and a registration number that [^\d+$] does not match
    raises the [ValueError] of the second setter; by then the record at the
    index has the new name and still its old registration number and id,
    the other records are as before, and the file has not been written. *)
Theorem edit_not_atomic (w : World) (index_ : Z) (nama_ nim_ : string) :
  (0 ≤ index_ < Z.of_nat (length (data_ w)))%Z →
  PyStr.strip nama_ ≠ EmptyString →
  PyStr.match_digits nim_ = false →
  ∃ old w',
    data_ w !! Z.to_nat index_ = Some old ∧
    edit index_ nama_ nim_ w = (Raise (ValueError "NIM harus berupa angka"), w') ∧
    data_ w' !! Z.to_nat index_ = Some (mkMahasiswa (id old) nama_ (nim old)) ∧
    (∀ j, j ≠ Z.to_nat index_ → data_ w' !! j = data_ w !! j) ∧
    file w' = file w ∧ writes w' = writes w ∧
    total_mahasiswa w' = total_mahasiswa w.
Proof.
  intros Hi Hnama Hnim.
  destruct (lookup_lt_is_Some_2 (data_ w) (Z.to_nat index_)) as [old Hold]; [lia|].
  exists old. eexists. split; [done|].
  split; [by apply edit_run_nim_raises|].
  cbn [data_ file writes total_mahasiswa set_data]. split_and!; try done.
  - apply list_lookup_insert_eq. lia.
  - intros j Hj. by apply list_lookup_insert_ne.
Qed.

Lemma edit_not_atomic_witness :
  let w := mkWorld 1 [mkMahasiswa 1 "Ada Lovelace" "123456789"] None 0 in
  ∃ w', edit 0 "Ada L." "12x" w = (Raise (ValueError "NIM harus berupa angka"), w') ∧
        data_ w' = [mkMahasiswa 1 "Ada L." "123456789"] ∧
        writes w' = 0.
Proof.
  intros w.
  assert (0 ≤ 0 < Z.of_nat (length (data_ w)))%Z as Hi by (simpl; lia).
  assert (PyStr.strip "Ada L." ≠ EmptyString) as Hnama by (vm_compute; discriminate).
  assert (PyStr.match_digits "12x" = false) as Hnim by reflexivity.
  destruct (edit_not_atomic w 0 "Ada L." "12x" Hi Hnama Hnim)
    as (old & w' & Hold & Hrun & _).
  exists w'. split; [exact Hrun|].
  rewrite (edit_run_nim_raises w 0 "Ada L." "12x" old Hi Hold Hnama Hnim) in Hrun.
  injection Hrun as <-. split; [|reflexivity].
  simpl in Hold. injection Hold as <-. reflexivity.
Defined.

(** * Further properties *)

(** ** Stability of bubble_sort, insertion_sort and merge_sort *)

Section stability.
Import SortAlgorithms.
Variable by_ : string.
Implicit Types (a l data : list Mahasiswa) (x y : Mahasiswa).

Local Notation "x ⪯ y" := (key_le by_ x y) (at level 70).
Local Abbreviation keep v := (filter (fun x => sort_key by_ x = v)).

Lemma gt_key_ne x y :
  PyStr.gt (sort_key by_ x) (sort_key by_ y) = true → sort_key by_ x ≠ sort_key by_ y.
Proof.
  intros Hgt Heq. apply gt_true_not_le in Hgt. rewrite Heq in Hgt.
  pose proof (str_le_refl (sort_key by_ y)) as Hrefl. unfold str_le in Hrefl. congruence.
Qed.

Lemma keep_swap_ne v x y :
  sort_key by_ x ≠ sort_key by_ y → keep v [y; x] = keep v [x; y].
Proof.
  intros Hne. rewrite !filter_cons, !filter_nil.
  repeat case_decide; congruence.
Qed.

(** A loop keeps what each round keeps. *)
Lemma for_each_preserves {S} (P : S → Prop) (body : S → nat → option S) r : ∀ s s',
  (∀ s i s', P s → body s i = Some s' → P s') →
  P s → for_each body s r = Some s' → P s'.
Proof.
  induction r as [|i r IH]; intros s s' Hbody Hs Hrun; simpl in Hrun.
  - by simplify_eq.
  - destruct (body s i) as [s1|] eqn:Hstep; [|done]. simpl in Hrun.
    eapply (IH s1); [done| |done]. by eapply Hbody.
Qed.

Lemma lookup_split_two a j x y :
  a !! j = Some x → a !! (j + 1) = Some y →
  a = take j a ++ x :: y :: drop (S (S j)) a ∧ length (take j a) = j.
Proof.
  intros Hx Hy. split.
  - rewrite <-(take_drop_middle a j x Hx) at 1. do 2 f_equal.
    rewrite Nat.add_1_r in Hy.
    rewrite <-(take_drop_middle a (S j) y Hy) at 1.
    by rewrite drop_app_length' by (rewrite length_take; apply lookup_lt_Some in Hy; lia).
  - rewrite length_take. apply lookup_lt_Some in Hx. lia.
Qed.

Lemma bubble_step_keeps a j a' v :
  bubble_step by_ a j = Some a' → keep v a' = keep v a.
Proof.
  intros Hstep.
  destruct (a !! j) as [x|] eqn:Hx; [|by unfold bubble_step in Hstep; rewrite Hx in Hstep].
  destruct (a !! (j + 1)) as [y|] eqn:Hy;
    [|by unfold bubble_step in Hstep; rewrite Hx, Hy in Hstep].
  destruct (lookup_split_two a j x y Hx Hy) as [Ha Hlen].
  remember (take j a) as l eqn:Hl. remember (drop (S (S j)) a) as rest eqn:Hrest.
  clear Hl Hrest Hx Hy. subst a j.
  rewrite bubble_step_middle in Hstep. injection Hstep as <-.
  destruct (PyStr.gt _ _) eqn:Hgt; [|done].
  rewrite !filter_app. f_equal.
  change (y :: x :: rest) with ([y; x] ++ rest).
  change (x :: y :: rest) with ([x; y] ++ rest).
  rewrite !filter_app. f_equal. apply keep_swap_ne. by apply gt_key_ne.
Qed.

Lemma bubble_sort_stable data out :
  bubble_sort data by_ = Some out → stable_by by_ data out.
Proof.
  intros Hrun v. unfold bubble_sort in Hrun.
  eapply (for_each_preserves (fun a => keep v a = keep v data) _ _ data);
    [|reflexivity|exact Hrun].
  intros a i a' Ha Hpass. rewrite <-Ha.
  eapply (for_each_preserves (fun b => keep v b = keep v a) _ _ a);
    [|reflexivity|exact Hpass].
  intros b j b' Hb Hstep. rewrite <-Hb. by eapply bubble_step_keeps.
Qed.

(** The inner loop of [insertion_sort] moves the hole only past elements
    whose key differs from the key of [key]. *)
Lemma insertion_shift_strict key l : ∀ h rest,
  ∃ l1 l2 h',
    l = l1 ++ l2 ∧
    insertion_shift by_ key (l ++ h :: rest) (length l)
      = Some (l1 ++ h' :: l2 ++ rest, length l1) ∧
    Forall (λ z, sort_key by_ z ≠ sort_key by_ key) l2.
Proof.
  induction l as [|x l IH] using rev_ind; intros h rest.
  - exists [], [], h. split_and!; try done.
  - rewrite length_app. simpl. rewrite Nat.add_1_r, insertion_shift_S.
    rewrite <-app_assoc. simpl.
    rewrite (list_lookup_middle l _ x (length l)) by done. cbn [mbind option_bind].
    destruct (PyStr.gt (sort_key by_ x) (sort_key by_ key)) eqn:Hgt.
    + rewrite aset_Some by (rewrite length_app; simpl; lia).
      cbn [mbind option_bind].
      rewrite insert_app_r_alt by lia.
      replace (length l + 1 - length l) with 1 by lia. simpl.
      destruct (IH x (x :: rest)) as (l1 & l2 & h' & -> & Hrun & Hl2).
      exists l1, (l2 ++ [x]), h'. rewrite Hrun. split_and!.
      * by rewrite app_assoc.
      * by rewrite <-app_assoc.
      * apply Forall_app. split; [done|]. repeat constructor. by apply gt_key_ne.
    + exists (l ++ [x]), [], h. split_and!.
      * by rewrite app_nil_r.
      * rewrite <-app_assoc, length_app. simpl. by rewrite Nat.add_1_r.
      * constructor.
Qed.

Lemma keep_none v l :
  Forall (λ z, sort_key by_ z ≠ v) l → keep v l = [].
Proof.
  induction 1 as [|z l Hz _ IH]; [done|].
  by rewrite filter_cons, decide_False.
Qed.

Lemma insertion_pass_keeps a i a' v :
  insertion_pass by_ a i = Some a' → keep v a' = keep v a.
Proof.
  intros Hpass. unfold insertion_pass in Hpass.
  destruct (a !! i) as [key|] eqn:Hkey; [|done]. cbn [mbind option_bind] in Hpass.
  pose proof (take_drop_middle a i key Hkey) as Hsplit.
  assert (length (take i a) = i) as Hp.
  { rewrite length_take. apply lookup_lt_Some in Hkey. lia. }
  revert Hsplit Hp. generalize (take i a) (drop (S i) a). intros p rest <- Hp.
  clear Hkey.
  destruct (insertion_shift_strict key p key rest) as (l1 & l2 & h' & -> & Hrun & Hl2).
  rewrite Hp in Hrun. rewrite Hrun in Hpass. cbn [mbind option_bind fst snd] in Hpass.
  rewrite aset_Some in Hpass by (rewrite length_app; simpl; lia).
  rewrite insert_app_r_alt, Nat.sub_diag in Hpass by lia. simpl in Hpass.
  injection Hpass as <-.
  rewrite <-app_assoc. rewrite !filter_app, !filter_cons, !filter_app.
  case_decide as Hv; [|done].
  rewrite (keep_none v l2); [done|]. by rewrite <-Hv.
Qed.

Lemma insertion_sort_stable data out :
  insertion_sort data by_ = Some out → stable_by by_ data out.
Proof.
  intros Hrun v. unfold insertion_sort in Hrun.
  eapply (for_each_preserves (fun a => keep v a = keep v data) _ _ data);
    [|reflexivity|exact Hrun].
  intros a i a' Ha Hpass. rewrite <-Ha. by eapply insertion_pass_keeps.
Qed.

(** Merging keeps the records of each key in order, those of the left
    list first, when the left list is in order. *)
Lemma list_merge_keeps v l1 : ∀ l2,
  StronglySorted (key_le by_) l1 →
  keep v (list_merge (key_le by_) l1 l2) = keep v l1 ++ keep v l2.
Proof.
  induction l1 as [|x1 l1 IH1]; intros l2 Hs1.
  - by rewrite list_merge_nil_l.
  - induction l2 as [|x2 l2 IH2].
    + by rewrite list_merge_nil_r, filter_nil, app_nil_r.
    + rewrite list_merge_cons. case_decide as Hle.
      * rewrite !(filter_cons _ x1), IH1 by by inv Hs1.
        by case_decide.
      * rewrite (filter_cons _ x2), IH2, (filter_cons _ x2 l2).
        case_decide as Hv; [|done].
        rewrite (keep_none v (x1 :: l1)); [done|].
        apply StronglySorted_cons in Hs1 as [Hx1 _].
        assert (Forall (key_le by_ x1) (x1 :: l1)) as Hall by by constructor.
        eapply Forall_impl; [exact Hall|]. intros z Hz Hzv. simpl in Hz.
        apply Hle. unfold key_le in *. by rewrite Hv, <-Hzv.
Qed.

Lemma merge_sort_rec_keeps v fuel : ∀ data out,
  length data ≤ fuel → merge_sort_rec fuel data by_ = Some out →
  keep v out = keep v data.
Proof.
  induction fuel as [|fuel IH]; intros data out Hfuel Hrun.
  - simpl in Hrun. rewrite decide_True in Hrun by lia. by simplify_eq.
  - rewrite merge_sort_rec_S in Hrun. case_decide as Hlen; [by simplify_eq|].
    assert (0 < length data / 2 < length data) as Hmid.
    { split; [apply Nat.div_str_pos|apply Nat.div_lt]; lia. }
    destruct (merge_sort_rec_correct by_ fuel (take (length data / 2) data))
      as (l & Hl & _ & Hsl); [rewrite length_take; lia|].
    destruct (merge_sort_rec_correct by_ fuel (drop (length data / 2) data))
      as (r & Hr & _ & _); [rewrite length_drop; lia|].
    rewrite Hl, Hr in Hrun. cbn [mbind option_bind] in Hrun.
    rewrite _merge_spec in Hrun. injection Hrun as <-.
    rewrite list_merge_keeps by done.
    rewrite (IH (take (length data / 2) data) l) by (done || rewrite length_take; lia).
    rewrite (IH (drop (length data / 2) data) r) by (done || rewrite length_drop; lia).
    by rewrite <-filter_app, take_drop.
Qed.

Lemma merge_sort_stable data out :
  merge_sort data by_ = Some out → stable_by by_ data out.
Proof. intros Hrun v. by eapply merge_sort_rec_keeps. Qed.

(** Two lists in order with the same records under each key, in the same
    order, are one list. *)
Lemma ordered_stable_unique l1 : ∀ l2,
  StronglySorted (key_le by_) l1 → StronglySorted (key_le by_) l2 →
  (∀ v, keep v l1 = keep v l2) → l1 = l2.
Proof.
  assert (∀ l l' x, (∀ v, keep v (x :: l) = keep v l') → x ∈ l') as Hhead.
  { intros l l' x H. specialize (H (sort_key by_ x)).
    rewrite filter_cons, decide_True in H by done.
    assert (x ∈ keep (sort_key by_ x) l') as Hin by (rewrite <-H; by left).
    by apply list_elem_of_filter in Hin as [_ ?]. }
  induction l1 as [|x l1 IH]; intros l2 Hs1 Hs2 Hkeep.
  - destruct l2 as [|y l2]; [done|].
    assert (y ∈ []) as Hy%elem_of_nil; [|done].
    apply (Hhead l2). intros v. by rewrite Hkeep.
  - destruct l2 as [|y l2].
    { assert (x ∈ []) as Hx%elem_of_nil; [|done]. by apply (Hhead l1). }
    apply StronglySorted_cons in Hs1 as [Hx Hs1].
    apply StronglySorted_cons in Hs2 as [Hy Hs2].
    assert (sort_key by_ x = sort_key by_ y) as Hxy.
    { apply (anti_symm str_le).
      - pose proof (Hhead l2 (x :: l1) y) as Hin.
        apply elem_of_cons in Hin as [->|Hin]; [reflexivity| |by intros v; rewrite Hkeep].
        by eapply Forall_forall in Hx.
      - pose proof (Hhead l1 (y :: l2) x Hkeep) as Hin.
        apply elem_of_cons in Hin as [->|Hin]; [reflexivity|].
        by eapply Forall_forall in Hy. }
    pose proof (Hkeep (sort_key by_ x)) as Hk.
    rewrite !filter_cons, decide_True, (decide_True (P:=sort_key by_ y = _)) in Hk by done.
    injection Hk as <- Hk. f_equal. apply IH; [done..|].
    intros v. specialize (Hkeep v). rewrite !filter_cons in Hkeep.
    case_decide; [|done]. by simplify_eq.
Qed.

End stability.

Lemma stable_by_arg k input output :
  stable_by (by_arg k) input output → stable k input output.
Proof. by destruct k. Qed.

(** X1. [bubble_sort] is stable: it exchanges two neighbours only when the
    first is above the second, so records of equal key never pass one
    another. *)
Theorem bubble_sort_is_stable (data : list Mahasiswa) (k : Key) :
  ∃ out, SortAlgorithms.bubble_sort data (by_arg k) = Some out ∧ stable k data out.
Proof.
  destruct (bubble_sort_correct (by_arg k) data) as (out & Hrun & _).
  exists out. split; [done|]. by apply stable_by_arg, bubble_sort_stable.
Qed.

(** X2. [insertion_sort] is stable: the element inserted moves left only
    past elements that are above it. *)
Theorem insertion_sort_is_stable (data : list Mahasiswa) (k : Key) :
  ∃ out, SortAlgorithms.insertion_sort data (by_arg k) = Some out ∧ stable k data out.
Proof.
  destruct (insertion_sort_correct (by_arg k) data) as (out & Hrun & _).
  exists out. split; [done|]. by apply stable_by_arg, insertion_sort_stable.
Qed.

(** X3. [merge_sort] is stable: on equal keys [_merge] takes the element of
    the left half, which came first. *)
Theorem merge_sort_is_stable (data : list Mahasiswa) (k : Key) :
  ∃ out, SortAlgorithms.merge_sort data (by_arg k) = Some out ∧ stable k data out.
Proof.
  destruct (merge_sort_correct (by_arg k) data) as (out & Hrun & _).
  exists out. split; [done|]. by apply stable_by_arg, merge_sort_stable.
Qed.

(** X4. [bubble_sort], [insertion_sort] and [merge_sort] return one and
    the same list, and on an input that is in order already this list is
    the input. *)
Theorem stable_sorts_agree (data : list Mahasiswa) (k : Key) :
  ∃ out, SortAlgorithms.bubble_sort data (by_arg k) = Some out ∧
         SortAlgorithms.insertion_sort data (by_arg k) = Some out ∧
         SortAlgorithms.merge_sort data (by_arg k) = Some out ∧
         (ordered k data → out = data).
Proof.
  destruct (bubble_sort_correct (by_arg k) data) as (o1 & H1 & _ & Hs1).
  destruct (insertion_sort_correct (by_arg k) data) as (o2 & H2 & _ & Hs2).
  destruct (merge_sort_correct (by_arg k) data) as (o3 & H3 & _ & Hs3).
  pose proof (bubble_sort_stable _ _ _ H1) as Hk1.
  pose proof (insertion_sort_stable _ _ _ H2) as Hk2.
  pose proof (merge_sort_stable _ _ _ H3) as Hk3.
  assert (o2 = o1) as ->.
  { apply (ordered_stable_unique (by_arg k)); [done..|]. intros v. by rewrite Hk1, Hk2. }
  assert (o3 = o1) as ->.
  { apply (ordered_stable_unique (by_arg k)); [done..|]. intros v. by rewrite Hk1, Hk3. }
  exists o1. split_and!; [done..|].
  intros Hord. apply (ordered_stable_unique (by_arg k)); [done| |done].
  by apply ordered_key_le.
Qed.

Lemma sort_key_fallback by_ x : by_ ≠ "nama" → sort_key by_ x = nim x.
Proof. intros Hby. unfold sort_key. by apply String.eqb_neq in Hby as ->. Qed.

(** X5. Only the value ['nama'] of [by] selects the name: with any other
    value, such as ['Nama'] or ['NIM'], each of the five sorts orders by the
    registration number and [linear_search] searches the registration
    number. *)
Theorem by_other_than_nama_is_nim (data : list Mahasiswa) (by_ keyword : string) :
  by_ ≠ "nama" →
  Forall (fun sort =>
            ∃ out, sort data by_ = Some out ∧ Permutation data out ∧ ordered ByNim out)
         sort_algorithms
  ∧ SearchAlgorithms.linear_search data keyword by_
    = SearchAlgorithms.linear_search data keyword (by_arg ByNim).
Proof.
  intros Hby.
  assert (∀ out, StronglySorted (key_le by_) out → ordered ByNim out) as Hord.
  { intros out. unfold ordered, key_le.
    induction 1 as [|x l ? IH Hx]; constructor; [done|].
    eapply Forall_impl; [exact Hx|]. intros y; simpl.
    by rewrite !sort_key_fallback. }
  split.
  - repeat apply Forall_cons_2; [..|apply Forall_nil_2].
    + destruct (bubble_sort_correct by_ data) as (out & ? & ? & ?). exists out. auto.
    + destruct (selection_sort_correct by_ data) as (out & ? & ? & ?). exists out. auto.
    + destruct (insertion_sort_correct by_ data) as (out & ? & ? & ?). exists out. auto.
    + destruct (merge_sort_correct by_ data) as (out & ? & ? & ?). exists out. auto.
    + destruct (shell_sort_correct by_ data) as (out & ? & ? & ?). exists out. auto.
  - unfold SearchAlgorithms.linear_search.
    by apply String.eqb_neq in Hby as ->.
Qed.

Lemma by_other_than_nama_is_nim_witness :
  let data := [Samples.budi; Samples.budi2; Samples.andi] in
  SearchAlgorithms.linear_search data "3" "Nama" = [Samples.budi].
Proof.
  intros data.
  assert ("Nama" ≠ "nama") as Hby by discriminate.
  destruct (by_other_than_nama_is_nim data "Nama" "3" Hby) as [_ ->].
  reflexivity.
Defined.

(** ** Validator and the setters *)

Section validators.
Implicit Types (s p rest : string) (cls : ascii → bool).

Lemma length_append p : ∀ q,
  String.length (String.append p q) = String.length p + String.length q.
Proof.
  induction p as [|c p IH]; intros q; [done|].
  rewrite append_String. simpl. by rewrite IH.
Qed.

Lemma append_Empty_r p : String.append p EmptyString = p.
Proof. induction p as [|c p IH]; [done|]. by rewrite append_String, IH. Qed.

Lemma append_assoc p q r :
  String.append (String.append p q) r = String.append p (String.append q r).
Proof. induction p as [|c p IH]; [done|]. by rewrite !append_String, IH. Qed.

Lemma all_chars_append cls p q :
  all_chars cls (String.append p q) = all_chars cls p && all_chars cls q.
Proof.
  induction p as [|c p IH]; [done|].
  rewrite append_String. simpl. by rewrite IH, andb_assoc.
Qed.

Lemma take_class_spec cls k : ∀ s rest,
  Re.take_class cls k s = Some rest ↔
  ∃ p, s = String.append p rest ∧ String.length p = k ∧ all_chars cls p = true.
Proof.
  induction k as [|k IH]; intros s rest; simpl.
  - split.
    + intros [= ->]. by exists EmptyString.
    + intros ([|??] & -> & Hlen & _); [done|by simpl in Hlen].
  - destruct s as [|c s].
    + split; [done|]. intros ([|??] & Hs & Hlen & _); [done|].
      by rewrite append_String in Hs.
    + destruct (cls c) eqn:Hc.
      * rewrite IH. split.
        -- intros (p & -> & Hlen & Hall). exists (String c p).
           rewrite append_String. simpl. by rewrite Hc, Hlen, Hall.
        -- intros ([|c' p] & Hs & Hlen & Hall); [done|].
           rewrite append_String in Hs. simpl in Hlen, Hall.
           injection Hs as <- ->. exists p.
           apply andb_true_iff in Hall as [_ Hall]. split_and!; [done|lia|done].
      * split; [done|]. intros ([|c' p] & Hs & Hlen & Hall); [done|].
        rewrite append_String in Hs. injection Hs as <- ->.
        simpl in Hall. by rewrite Hc in Hall.
Qed.

Lemma at_end_spec rest : Re.at_end rest = true ↔ rest = EmptyString ∨ rest = nl.
Proof.
  unfold nl. destruct rest as [|c [|c' rest]]; simpl.
  - split; [by left|done].
  - destruct (Ascii.eqb_spec c PyStr.newline) as [->|Hne].
    + split; [by right|done].
    + split; [done|]. intros [?|?]; congruence.
  - split; [done|]. by intros [?|?].
Qed.

(** What the pattern [^[class]{lo,hi}$] accepts: between [lo] and [hi]
    characters of the class, and after them nothing or one newline. *)
Lemma match_repeat_spec cls lo hi s :
  Re.match_repeat cls lo hi s = true ↔
  ∃ p rest, s = String.append p rest ∧ lo ≤ String.length p ≤ hi ∧
            all_chars cls p = true ∧ (rest = EmptyString ∨ rest = nl).
Proof.
  unfold Re.match_repeat. rewrite existsb_exists. split.
  - intros (k & Hk & Hm). apply in_seq in Hk.
    destruct (Re.take_class cls k s) as [rest|] eqn:Htake; [|done].
    apply take_class_spec in Htake as (p & -> & Hlen & Hall).
    apply at_end_spec in Hm. exists p, rest. split_and!; [done|lia|lia|done|done].
  - intros (p & rest & -> & Hlen & Hall & Hrest).
    exists (String.length p). split; [apply in_seq; lia|].
    assert (Re.take_class cls (String.length p) (String.append p rest) = Some rest) as ->.
    { apply take_class_spec. by exists p. }
    by apply at_end_spec.
Qed.

Lemma skip_digits_split s :
  ∃ p, s = String.append p (PyStr.skip_digits s) ∧ PyStr.all_digits p = true.
Proof.
  induction s as [|c s (p & Hp & Hall)]; simpl.
  - by exists EmptyString.
  - destruct (PyStr.is_digit c) eqn:Hc.
    + exists (String c p). rewrite append_String, <-Hp. simpl. by rewrite Hc, Hall.
    + by exists EmptyString.
Qed.

Lemma skip_digits_append p rest :
  PyStr.all_digits p = true → rest = EmptyString ∨ rest = nl →
  PyStr.skip_digits (String.append p rest) = rest.
Proof.
  intros Hall Hrest. induction p as [|c p IH].
  - rewrite append_Empty. by destruct Hrest as [->| ->].
  - simpl in Hall. apply andb_true_iff in Hall as [Hc Hall].
    rewrite append_String. simpl. rewrite Hc. by apply IH.
Qed.

(** The pattern [^\d+$] of the setter accepts a string of one digit or
    more, and after it nothing or one newline. *)
Lemma match_digits_spec s :
  PyStr.match_digits s = true ↔
  ∃ p rest, s = String.append p rest ∧ 1 ≤ String.length p ∧
            PyStr.all_digits p = true ∧ (rest = EmptyString ∨ rest = nl).
Proof.
  split.
  - intros Hm. destruct s as [|c s]; [done|].
    unfold PyStr.match_digits in Hm. apply andb_true_iff in Hm as [Hc Hend].
    destruct (skip_digits_split (String c s)) as (p & Hp & Hall).
    exists p, (PyStr.skip_digits (String c s)). split_and!; [done| |done|].
    + destruct p as [|??]; [|simpl; lia].
      rewrite append_Empty in Hp. simpl in Hp. rewrite Hc in Hp.
      assert (String.length (String c s) = String.length (PyStr.skip_digits s)) as Hlen
        by by rewrite Hp at 1.
      destruct (skip_digits_split s) as (q & Hq & _).
      rewrite Hq in Hlen at 1. simpl in Hlen. rewrite length_append in Hlen. lia.
    + apply at_end_spec. unfold Re.at_end.
      by destruct (PyStr.skip_digits (String c s)) as [|? [|??]].
  - intros (p & rest & -> & Hlen & Hall & Hrest).
    destruct p as [|c p]; [simpl in Hlen; lia|].
    pose proof (skip_digits_append (String c p) rest Hall Hrest) as Hskip.
    rewrite append_String in *. unfold PyStr.match_digits. rewrite Hskip.
    simpl in Hall. apply andb_true_iff in Hall as [-> _]. simpl.
    destruct Hrest as [->| ->]; [done|]. unfold nl. by rewrite Ascii.eqb_refl.
Qed.

Lemma all_digits_all_chars s : PyStr.all_digits s = all_chars PyStr.is_digit s.
Proof. induction s as [|c s IH]; simpl; [done|]. by rewrite IH. Qed.

Lemma validate_nim_match_digits s :
  Re.match_repeat PyStr.is_digit 9 12 s = true → PyStr.match_digits s = true.
Proof.
  rewrite match_repeat_spec, match_digits_spec.
  intros (p & rest & -> & Hlen & Hall & Hrest).
  exists p, rest. rewrite all_digits_all_chars. split_and!; [done|lia|done|done].
Qed.

(** A string of white space is empty after [strip]. *)
Lemma strip_blank s : all_chars PyStr.is_space s = true → PyStr.strip s = EmptyString.
Proof.
  unfold PyStr.strip. induction s as [|c s IH]; simpl; [done|].
  intros [Hc Hs]%andb_true_iff. rewrite Hc. by apply IH.
Qed.

End validators.

(** X6. A registration number that [Validator.validate_nim] accepts is one
    that [Mahasiswa.validate_nim] accepts and that the setter of [nim]
    stores without raising. *)
Theorem validated_nim_passes_setter (value : string) :
  (Validator.validate_nim value).1 = true →
  Validator.validate_nim value = (true, EmptyString) ∧
  Mahasiswa_validate_nim value = true ∧
  ∀ self, set_nim self value = Return (mkMahasiswa (id self) (nama self) value).
Proof.
  unfold Validator.validate_nim, Mahasiswa_validate_nim.
  destruct (Re.match_repeat PyStr.is_digit 9 12 value) eqn:Hm; [|done].
  intros _. split_and!; [done..|].
  intros self. by apply set_nim_ok, validate_nim_match_digits.
Qed.

Lemma validated_nim_passes_setter_witness :
  set_nim Samples.budi "241011400097" = Return (mkMahasiswa 1 "Budi" "241011400097").
Proof.
  assert ((Validator.validate_nim "241011400097").1 = true) as Hv by reflexivity.
  destruct (validated_nim_passes_setter "241011400097" Hv) as (_ & _ & Hset).
  exact (Hset Samples.budi).
Defined.


Lemma validate_nama_spec value :
  (Validator.validate_nama value).1 = true ↔
  all_chars name_char value = true ∧
  (3 ≤ String.length value ≤ 50 ∨
   String.length value = 51 ∧ ∃ p, value = String.append p nl).
Proof.
  unfold Validator.validate_nama.
  assert ((if Re.match_repeat name_char 3 50 value
           then (true, EmptyString)
           else (false, "Nama harus 3-50 karakter, hanya boleh huruf dan spasi")).1
          = Re.match_repeat name_char 3 50 value) as -> by by destruct (Re.match_repeat _ _ _ _).
  rewrite match_repeat_spec. split.
  - intros (p & rest & -> & Hlen & Hall & [->| ->]).
    + rewrite append_Empty_r. split; [done|]. left. lia.
    + rewrite all_chars_append, Hall, length_append. split; [done|].
      simpl String.length.
      destruct (decide (String.length p = 50)); [right|left; lia].
      split; [lia|]. by exists p.
  - intros [Hall [Hlen|[Hlen (p & ->)]]].
    + exists value, EmptyString. rewrite append_Empty_r.
      split_and!; [done|lia|lia|done|by left].
    + rewrite length_append in Hlen. simpl in Hlen.
      rewrite all_chars_append in Hall. apply andb_true_iff in Hall as [Hall _].
      exists p, nl. split_and!; [done|lia|lia|done|by right].
Qed.

(** X8. [Validator.validate_nama] accepts exactly the strings of letters,
    white space and full stops that have 3 to 50 characters, or 51 of which
    the last is a newline. *)
Theorem validate_nama_accepts_exactly (value : string) :
  (Validator.validate_nama value).1 = true ↔
  all_chars name_char value = true ∧
  (3 ≤ String.length value ≤ 50 ∨
   String.length value = 51 ∧ ∃ p, value = String.append p nl).
Proof. apply validate_nama_spec. Qed.

(** X9. The two checks of a name disagree on blanks: a string of 3 to 50
    white-space characters passes [Validator.validate_nama], while the
    setter of [nama] raises on it. *)
Theorem blank_name_passes_validator_not_setter (self : Mahasiswa) (value : string) :
  all_chars PyStr.is_space value = true →
  3 ≤ String.length value ≤ 50 →
  Validator.validate_nama value = (true, EmptyString) ∧
  set_nama self value = Raise (ValueError "Nama tidak boleh kosong").
Proof.
  intros Hblank Hlen. split.
  - assert ((Validator.validate_nama value).1 = true) as Hv.
    { apply validate_nama_spec. split; [|by left].
      clear Hlen. induction value as [|c s IH]; simpl in *; [done|].
      apply andb_true_iff in Hblank as [Hc Hs].
      rewrite IH by done. unfold name_char. by rewrite Hc, orb_true_r. }
    unfold Validator.validate_nama in *. by destruct (Re.match_repeat _ _ _ _).
  - by apply set_nama_raises, strip_blank.
Qed.

Lemma blank_name_passes_validator_not_setter_witness :
  Validator.validate_nama "   " = (true, EmptyString) ∧
  set_nama Samples.budi "   " = Raise (ValueError "Nama tidak boleh kosong").
Proof.
  apply (blank_name_passes_validator_not_setter Samples.budi "   ").
  - reflexivity.
  - simpl. lia.
Defined.

(** ** AuthSystem *)

(** X10. Whatever the hash function, [login] returns [True] exactly for
    the user [admin] with a password that hashes like [admin123] and for
    the user [operator] with one that hashes like [opt23]. It then records
    the user; when it returns [False] it changes nothing, so that whoever
    was logged in before stays logged in. *)
Theorem login_accepts_exactly (_hash_password : string → string)
    (username password : string) (self : AuthState) :
  users self = users (AuthSystem.init _hash_password) →
  let r := AuthSystem.login _hash_password username password self in
  (r.1 = true ↔
     (username = "admin" ∧ _hash_password password = _hash_password "admin123") ∨
     (username = "operator" ∧ _hash_password password = _hash_password "opt23")) ∧
  (r.1 = true → r.2 = mkAuth (users self) (Some username)) ∧
  (r.1 = false → r.2 = self).
Proof.
  intros Husers. unfold AuthSystem.login. rewrite Husers. simpl users.
  destruct (Validator.validate_username username) eqn:Hv; simpl.
  2:{ split_and!; [|done..]. split; [done|].
      intros [[-> _]|[-> _]]; by vm_compute in Hv. }
  destruct (decide (username = "operator")) as [->|Hop].
  { rewrite lookup_insert_eq.
    destruct (String.eqb_spec (_hash_password "opt23") (_hash_password password)) as [He|Hne];
      simpl; (split_and!; [|done..]).
    - split; [|done]. intros _. by right.
    - split; [done|]. intros [[? _]|[_ ?]]; congruence. }
  rewrite lookup_insert_ne by done.
  destruct (decide (username = "admin")) as [->|Had].
  { rewrite lookup_insert_eq.
    destruct (String.eqb_spec (_hash_password "admin123") (_hash_password password))
      as [He|Hne]; simpl; (split_and!; [|done..]).
    - split; [|done]. intros _. by left.
    - split; [done|]. intros [[_ ?]|[? _]]; congruence. }
  rewrite lookup_insert_ne, lookup_empty by done. simpl.
  split_and!; [|done..]. split; [done|]. intros [[? _]|[? _]]; congruence.
Qed.

Lemma login_accepts_exactly_witness :
  let h := fun s : string => s in
  (AuthSystem.login h "operator" "opt23" (AuthSystem.init h)).1 = true ∧
  (AuthSystem.login h "operator" "op123" (AuthSystem.init h)).1 = false.
Proof.
  intros h.
  pose proof (login_accepts_exactly h "operator" "opt23" (AuthSystem.init h) eq_refl)
    as (Hok & _ & _).
  pose proof (login_accepts_exactly h "operator" "op123" (AuthSystem.init h) eq_refl)
    as (Hbad & _ & _).
  split.
  - apply Hok. right. split; reflexivity.
  - destruct (AuthSystem.login h "operator" "op123" (AuthSystem.init h)).1; [|reflexivity].
    destruct Hbad as [Hbad _]. destruct (Hbad eq_refl) as [[Hu _]|[_ Hp]]; discriminate.
Defined.

(** ** More on the store *)

Section store_more.
Import DataManager.
Implicit Types (w : World) (m : Mahasiswa).

Lemma get_by_index_outside w (i : Z) :
  ¬ (0 ≤ i < Z.of_nat (length (data_ w)))%Z → get_by_index i w = (Return None, w).
Proof. intros Hi. unfold get_by_index. run_M. by rewrite decide_False. Qed.


Lemma edit_run_ok w index_ nama_ nim_ old :
  (0 ≤ index_ < Z.of_nat (length (data_ w)))%Z →
  data_ w !! Z.to_nat index_ = Some old →
  PyStr.strip nama_ ≠ EmptyString →
  PyStr.match_digits nim_ = true →
  edit index_ nama_ nim_ w =
  (Return tt,
   write_file
     (JList (to_dict <$> <[Z.to_nat index_ := mkMahasiswa (id old) nama_ nim_]> (data_ w)))
     (set_data (<[Z.to_nat index_ := mkMahasiswa (id old) nama_ nim_]> (data_ w)) w)).
Proof.
  intros Hi Hold Hnama Hnim. unfold edit, setattr_at. run_M.
  rewrite decide_True by done.
  rewrite !index_nonneg, Hold by lia.
  rewrite set_nama_ok by done. simpl.
  rewrite index_nonneg by lia.
  rewrite list_lookup_insert_eq by lia.
  rewrite set_nim_ok by done. simpl.
  by rewrite list_insert_insert_eq.
Qed.

Lemma edit_run_nama_raises w index_ nama_ nim_ :
  (0 ≤ index_ < Z.of_nat (length (data_ w)))%Z →
  PyStr.strip nama_ = EmptyString →
  edit index_ nama_ nim_ w = (Raise (ValueError "Nama tidak boleh kosong"), w).
Proof.
  intros Hi Hnama. unfold edit, setattr_at. run_M.
  rewrite decide_True by done.
  destruct (lookup_lt_is_Some_2 (data_ w) (Z.to_nat index_)) as [old Hold]; [lia|].
  rewrite !index_nonneg, Hold by lia.
  by rewrite set_nama_raises.
Qed.





End store_more.

Import DataManager.

(** X11. A record handed to [tambah] is then what [get_by_index] returns at
    the last position, the earlier positions give what they gave before,
    and an index below 0 or beyond the end gives [None]: a negative index
    does not count from the end. *)
Theorem tambah_then_get (w : World) (m : Mahasiswa) :
  ∃ w', tambah m w = (Return tt, w') ∧
        get_by_index (Z.of_nat (length (data_ w))) w' = (Return (Some m), w') ∧
        (∀ j : nat, j < length (data_ w) →
                    get_by_index (Z.of_nat j) w' = (Return (data_ w !! j), w')) ∧
        (∀ i : Z, (i < 0 ∨ Z.of_nat (length (data_ w)) < i)%Z →
                  get_by_index i w' = (Return None, w')).
Proof.
  eexists. split; [apply tambah_run|].
  split_and!.
  - rewrite get_by_index_nat. cbn [data_ write_file set_data].
    by rewrite list_lookup_middle.
  - intros j Hj. rewrite get_by_index_nat. cbn [data_ write_file set_data].
    by rewrite lookup_app_l.
  - intros i Hi. apply get_by_index_outside. cbn [data_ write_file set_data].
    rewrite length_app. simpl. lia.
Qed.



(** X13. [edit] with an index inside the list and a name that is empty
    after trimming raises the [ValueError] of the name setter and changes
    nothing at all, whatever the registration number. *)
Theorem edit_blank_name_changes_nothing (w : World) (index_ : Z) (nama_ nim_ : string) :
  (0 ≤ index_ < Z.of_nat (length (data_ w)))%Z →
  PyStr.strip nama_ = EmptyString →
  edit index_ nama_ nim_ w = (Raise (ValueError "Nama tidak boleh kosong"), w).
Proof. apply edit_run_nama_raises. Qed.

Lemma edit_blank_name_changes_nothing_witness :
  let w := mkWorld 1 [mkMahasiswa 1 "Ada Lovelace" "123456789"] None 0 in
  edit 0 "   " "987654321" w = (Raise (ValueError "Nama tidak boleh kosong"), w).
Proof.
  intros w. apply (edit_blank_name_changes_nothing w 0 "   " "987654321").
  - simpl. lia.
  - reflexivity.
Defined.




(** ** More on the searches *)

Lemma contains_refl s : PyStr.contains s s = true.
Proof.
  apply contains_spec. exists EmptyString, EmptyString.
  by rewrite append_Empty, append_Empty_r.
Qed.

Lemma linear_search_filter data keyword k :
  SearchAlgorithms.linear_search data keyword (by_arg k)
  = List.filter
      (fun m => PyStr.contains (PyStr.lower keyword) (PyStr.lower (field_of k m))) data.
Proof.
  unfold SearchAlgorithms.linear_search. rewrite foldl_append_filter. simpl.
  destruct k; simpl; [|done].
  induction data as [|m data IH]; simpl; [done|].
  by rewrite lower_idemp, IH.
Qed.

Lemma linear_search_elem data keyword k m :
  m ∈ SearchAlgorithms.linear_search data keyword (by_arg k) ↔
  m ∈ data ∧
  PyStr.contains (PyStr.lower keyword) (PyStr.lower (field_of k m)) = true.
Proof.
  rewrite linear_search_filter.
  rewrite !list_elem_of_In, filter_In. done.
Qed.

(** X16. In a list where no two records have one registration number,
    [binary_search] for the registration number of a record of the list
    returns this very record. *)
Theorem binary_search_finds_the_record (data : list Mahasiswa) (m : Mahasiswa) :
  NoDup (nim <$> data) → m ∈ data →
  SearchAlgorithms.binary_search data (nim m) = Some (Some m).
Proof.
  intros Hnd Hm.
  destruct (binary_search_spec data (nim m)) as (res & -> & Hsome & Hnone).
  destruct res as [m'|].
  - destruct (Hsome m' eq_refl) as [Hm' Hnim]. do 2 f_equal.
    apply list_elem_of_lookup in Hm as [i Hi]. apply list_elem_of_lookup in Hm' as [j Hj].
    assert (i = j) as ->; [|congruence].
    eapply NoDup_lookup; [exact Hnd|..]; rewrite list_lookup_fmap.
    + by rewrite Hi.
    + rewrite Hj. simpl. by rewrite Hnim.
  - by destruct (Hnone eq_refl m Hm).
Qed.

Lemma binary_search_finds_the_record_witness :
  SearchAlgorithms.binary_search [Samples.budi; Samples.budi2; Samples.andi] "200"
  = Some (Some Samples.budi2).
Proof.
  apply (binary_search_finds_the_record
           [Samples.budi; Samples.budi2; Samples.andi] Samples.budi2).
  - simpl. repeat constructor; rewrite ?elem_of_cons, ?elem_of_nil;
      intros H; repeat destruct H as [H|H]; discriminate || done.
  - right. left.
Defined.

(** X17. A record of the list is among the results of [linear_search] for
    its whole registration number and among those of [sequential_search]
    and of [linear_search] by name for its whole name. *)
Theorem record_found_by_whole_field (data : list Mahasiswa) (m : Mahasiswa) :
  m ∈ data →
  m ∈ SearchAlgorithms.linear_search data (nim m) (by_arg ByNim) ∧
  m ∈ SearchAlgorithms.linear_search data (nama m) (by_arg ByName) ∧
  m ∈ SearchAlgorithms.sequential_search data (nama m).
Proof.
  intros Hm. unfold SearchAlgorithms.sequential_search.
  change "nama" with (by_arg ByName).
  rewrite !linear_search_elem. simpl. by rewrite !contains_refl.
Qed.

Lemma record_found_by_whole_field_witness :
  Samples.budi2 ∈ SearchAlgorithms.sequential_search
                    [Samples.budi; Samples.budi2; Samples.andi] "budi".
Proof.
  apply (record_found_by_whole_field [Samples.budi; Samples.budi2; Samples.andi]
           Samples.budi2).
  right. left.
Defined.

(** X18. What [binary_search] finds for a key, [linear_search] by
    registration number finds for the same key. *)
Theorem binary_result_is_linear_result (data : list Mahasiswa) (key : string)
    (m : Mahasiswa) :
  SearchAlgorithms.binary_search data key = Some (Some m) →
  m ∈ SearchAlgorithms.linear_search data key (by_arg ByNim).
Proof.
  intros Hrun.
  destruct (binary_search_spec data key) as (res & Hres & Hsome & _).
  rewrite Hrun in Hres. injection Hres as <-.
  destruct (Hsome m eq_refl) as [Hm <-].
  apply linear_search_elem. simpl. by rewrite contains_refl.
Qed.

Lemma binary_result_is_linear_result_witness :
  Samples.andi ∈ SearchAlgorithms.linear_search
                   [Samples.budi; Samples.budi2; Samples.andi] "100" (by_arg ByNim).
Proof.
  apply (binary_result_is_linear_result _ "100" Samples.andi). reflexivity.
Defined.

(** ** The forms *)

Section forms.
Import DataManager App.
Implicit Types (w : World) (m : Mahasiswa).
#[local] Arguments edit : simpl never.
#[local] Arguments hapus : simpl never.
#[local] Arguments tambah : simpl never.
#[local] Arguments simpan_ke_file : simpl never.

Lemma existsb_nim (l : list Mahasiswa) (n : string) :
  existsb (fun mhs => String.eqb (nim mhs) n) l = true ↔ n ∈ nim <$> l.
Proof.
  rewrite existsb_exists, list_elem_of_fmap. split.
  - intros (m & Hm & Heq%String.eqb_eq). subst n. exists m. by rewrite list_elem_of_In.
  - intros (m & -> & Hm). exists m.
    split; [by apply list_elem_of_In|apply String.eqb_refl].
Qed.

Lemma existsb_other_nim (data : list Mahasiswa) (index_ : nat) (n : string) :
  existsb (fun im => negb (Nat.eqb im.1 index_) && String.eqb (nim im.2) n)
          (enumerate data) = false →
  ∀ j m, data !! j = Some m → j ≠ index_ → nim m ≠ n.
Proof.
  intros Hex j m Hj Hne Hn.
  assert (existsb (fun im => negb (Nat.eqb im.1 index_) && String.eqb (nim im.2) n)
            (enumerate data) = true) as Htrue; [|congruence].
  apply existsb_exists. exists (j, m). split.
  - apply list_elem_of_In, list_elem_of_lookup. exists j.
    unfold enumerate. by rewrite list_lookup_imap, Hj.
  - simpl. apply andb_true_iff. split.
    + apply negb_true_iff. by apply Nat.eqb_neq.
    + by apply String.eqb_eq.
Qed.

Lemma NoDup_insert_fresh {A} (l : list A) (i : nat) (x : A) :
  NoDup l → (∀ j, j ≠ i → l !! j ≠ Some x) → NoDup (<[i:=x]> l).
Proof.
  rewrite !NoDup_alt. intros Hnd Hfresh j1 j2 y.
  destruct (decide (i < length l)) as [Hi|Hi];
    [|rewrite list_insert_ge by lia; apply Hnd].
  destruct (decide (j1 = i)) as [->|H1], (decide (j2 = i)) as [->|H2]; try done.
  - rewrite list_lookup_insert_eq, list_lookup_insert_ne by done.
    intros [= <-] H. by destruct (Hfresh j2 H2).
  - rewrite list_lookup_insert_eq, list_lookup_insert_ne by done.
    intros H [= <-]. by destruct (Hfresh j1 H1).
  - rewrite !list_lookup_insert_ne by done. apply Hnd.
Qed.

Lemma validate_nama_cases s :
  Validator.validate_nama s = (true, EmptyString) ∨
  ∃ msg, Validator.validate_nama s = (false, msg).
Proof. unfold Validator.validate_nama. destruct (Re.match_repeat _ _ _ _); eauto. Qed.

Lemma validate_nim_cases s :
  Validator.validate_nim s = (true, EmptyString) ∧ PyStr.match_digits s = true ∨
  ∃ msg, Validator.validate_nim s = (false, msg).
Proof.
  unfold Validator.validate_nim.
  destruct (Re.match_repeat _ _ _ _) eqn:Hm; [left|eauto].
  split; [done|]. by apply validate_nim_match_digits.
Qed.

Lemma input_form_submit_run nama_ nim_ w :
  unique_nims w →
  ∃ r w', input_form_submit nama_ nim_ w = (Return r, w') ∧ unique_nims w' ∧
    (((∃ msg, r = StError msg) ∧ w' = w)
     ∨ r = StSuccess (String.append "Data " (String.append nama_ " berhasil ditambahkan!")) ∧
       Validator.validate_nama nama_ = (true, EmptyString) ∧
       Validator.validate_nim nim_ = (true, EmptyString) ∧
       ¬ (nim_ ∈ nim <$> data_ w) ∧
       data_ w' = data_ w ++ [mkMahasiswa (total_mahasiswa w + 1) nama_ nim_] ∧
       total_mahasiswa w' = (total_mahasiswa w + 1)%Z ∧
       synced w' ∧ writes w' = S (S (writes w))).
Proof.
  intros Huniq. unfold input_form_submit.
  destruct (validate_nama_cases nama_) as [Hn|[msg Hn]],
           (validate_nim_cases nim_) as [[Hv _]|[msg' Hv]]; rewrite Hn, Hv;
    [|run_M; do 2 eexists; split; [done|]; split; [done|]; left; eauto..].
  unfold get_all. run_M.
  destruct (existsb _ (data_ w)) eqn:Hex.
  { do 2 eexists. split; [done|]. split; [done|]. left. eauto. }
  assert (nim_ ∉ nim <$> data_ w) as Hfresh.
  { intros Hin. apply existsb_nim in Hin. congruence. }
  do 2 eexists. split; [done|]. split.
  - unfold unique_nims. simpl. rewrite fmap_app. simpl.
    apply NoDup_app. split_and!; [done| |apply NoDup_singleton].
    intros x Hx ->%list_elem_of_singleton. done.
  - right. done.
Qed.

Lemma edit_form_submit_run index_ new_nama new_nim w old :
  unique_nims w → data_ w !! index_ = Some old →
  ∃ r w', edit_form_submit index_ new_nama new_nim w = (Return r, w') ∧ unique_nims w' ∧
    ((((∃ msg, r = StError msg) ∨ (∃ p e, r = StErrorExn p e)) ∧ w' = w)
     ∨ r = StSuccess "Data berhasil diupdate!" ∧
       data_ w' = <[index_ := mkMahasiswa (id old) new_nama new_nim]> (data_ w) ∧
       Validator.validate_nama new_nama = (true, EmptyString) ∧
       Validator.validate_nim new_nim = (true, EmptyString) ∧
       total_mahasiswa w' = total_mahasiswa w ∧
       synced w' ∧ writes w' = S (S (writes w))).
Proof.
  intros Huniq Hold.
  assert (0 ≤ Z.of_nat index_ < Z.of_nat (length (data_ w)))%Z as Hi.
  { apply lookup_lt_Some in Hold. lia. }
  unfold edit_form_submit, get_all.
  destruct (validate_nama_cases new_nama) as [Hn|[msg Hn]],
           (validate_nim_cases new_nim) as [[Hv Hmd]|[msg' Hv]]; rewrite Hn, Hv;
    run_M; destruct (data_ w) as [|m0 data0] eqn:Hdata; try done;
    rewrite <-Hdata in Hold, Hi |- *;
    try (do 2 eexists; split; [done|]; split; [done|]; left; by eauto).
  destruct (existsb _ (enumerate (data_ w))) eqn:Hex.
  { do 2 eexists. split; [done|]. split; [done|]. left. eauto. }
  destruct (decide (PyStr.strip new_nama = EmptyString)) as [Hblank|Hblank].
  { rewrite edit_run_nama_raises by done.
    do 2 eexists. split; [done|]. split; [done|]. left. eauto. }
  rewrite (edit_run_ok w _ new_nama new_nim old) by (done || by rewrite Nat2Z.id).
  cbv beta iota. rewrite Nat2Z.id.
  do 2 eexists. split; [done|]. split.
  - unfold unique_nims. cbn [data_ write_file set_data].
    rewrite list_fmap_insert. simpl. apply NoDup_insert_fresh; [done|].
    intros j Hj. rewrite list_lookup_fmap. intros Hlook.
    destruct (data_ w !! j) as [m|] eqn:Hm; [|done]. simpl in Hlook.
    injection Hlook as Hlook.
    by eapply (existsb_other_nim (data_ w) index_ new_nim).
  - right. done.
Qed.

Lemma hapus_list_valid {A} (d : list A) (i : Z) :
  (0 ≤ i < Z.of_nat (length d))%Z → hapus_list d i = delete (Z.to_nat i) d.
Proof. intros Hi. unfold hapus_list. by rewrite decide_True. Qed.

Lemma hapus_list_invalid {A} (d : list A) (i : Z) :
  ¬ (0 ≤ i < Z.of_nat (length d))%Z → hapus_list d i = d.
Proof. intros Hi. unfold hapus_list. by rewrite decide_False. Qed.

Lemma for_M_hapus_run (s : list Z) : ∀ w,
  ∃ w', for_M hapus s w = (Return tt, w') ∧
        data_ w' = foldl hapus_list (data_ w) s ∧
        total_mahasiswa w' = total_mahasiswa w ∧
        (synced w → synced w').
Proof.
  induction s as [|i s IH]; intros w.
  - exists w. by split_and!.
  - cbn [for_M]. unfold mbind, M_bind, bind.
    destruct (decide (0 ≤ i < Z.of_nat (length (data_ w)))%Z) as [Hi|Hi].
    + rewrite hapus_run_valid by done.
      destruct (IH (write_file (JList (to_dict <$> delete (Z.to_nat i) (data_ w)))
                      (set_data (delete (Z.to_nat i) (data_ w)) w)))
        as (w' & Hrun & Hdata & Htotal & Hsync).
      exists w'. split_and!; [done| |done|].
      * rewrite Hdata. cbn [data_ write_file set_data foldl].
        by rewrite hapus_list_valid.
      * intros _. by apply Hsync.
    + rewrite hapus_run_invalid by done.
      destruct (IH w) as (w' & Hrun & Hdata & Htotal & Hsync).
      exists w'. split_and!; [done| |done|done].
      rewrite Hdata. cbn [foldl]. by rewrite hapus_list_invalid.
Qed.

Lemma remove_from_ext {A} (sel sel' : list Z) (l : list A) : ∀ off,
  (∀ j, (off ≤ j < off + Z.of_nat (length l))%Z → j ∈ sel ↔ j ∈ sel') →
  remove_from sel off l = remove_from sel' off l.
Proof.
  induction l as [|x l IH]; intros off Hsel; [done|].
  simpl. rewrite (IH (off + 1)%Z) by (intros j Hj; apply Hsel; simpl; lia).
  assert (off ∈ sel ↔ off ∈ sel') as Hoff by (apply Hsel; simpl; lia).
  repeat case_decide; tauto.
Qed.

Lemma remove_from_none {A} (sel : list Z) (l : list A) : ∀ off,
  (∀ j, (off ≤ j < off + Z.of_nat (length l))%Z → j ∉ sel) →
  remove_from sel off l = l.
Proof.
  induction l as [|x l IH]; intros off Hsel; [done|].
  simpl. rewrite decide_False by (apply Hsel; simpl; lia).
  f_equal. apply IH. intros j Hj. apply Hsel. simpl. lia.
Qed.

Lemma remove_from_app {A} (sel : list Z) (p q : list A) : ∀ off,
  remove_from sel off (p ++ q)
  = remove_from sel off p ++ remove_from sel (off + Z.of_nat (length p)) q.
Proof.
  induction p as [|x p IH]; intros off.
  - simpl. by rewrite Z.add_0_r.
  - simpl. rewrite IH.
    replace (off + 1 + Z.of_nat (length p))%Z with (off + Z.pos (Pos.of_succ_nat (length p)))%Z
      by lia.
    by case_decide.
Qed.

(** Deleting the largest position first leaves the positions still to be
    deleted where they were. *)
Lemma hapus_largest_first {A} (i : Z) (s : list Z) (d : list A) :
  Forall (λ j, j < i)%Z s →
  remove_positions s (hapus_list d i) = remove_positions (i :: s) d.
Proof.
  intros Hs. unfold remove_positions, hapus_list.
  assert (∀ j, j ∈ s → (j < i)%Z) as Hlt by by apply Forall_forall.
  case_decide as Hi.
  - destruct (lookup_lt_is_Some_2 d (Z.to_nat i)) as [x Hx]; [lia|].
    rewrite delete_take_drop.
    rewrite <-(take_drop_middle d (Z.to_nat i) x Hx) at 3.
    rewrite !remove_from_app. rewrite length_take_le by lia.
    rewrite Z2Nat.id, Z.add_0_l by lia. f_equal.
    + apply remove_from_ext. intros j Hj. rewrite length_take_le in Hj by lia.
      rewrite elem_of_cons. split; [by right|]. intros [->|?]; [lia|done].
    + simpl. rewrite decide_True by by left.
      rewrite !remove_from_none; [done|..].
      * intros j Hj [->|Hin]%elem_of_cons; [lia|]. apply Hlt in Hin. lia.
      * intros j Hj Hin. apply Hlt in Hin. lia.
  - apply remove_from_ext. intros j Hj.
    rewrite elem_of_cons. split; [by right|]. intros [->|?]; [lia|done].
Qed.

Lemma foldl_hapus_descending {A} (s : list Z) : ∀ d : list A,
  StronglySorted (λ a b, b < a)%Z s →
  foldl hapus_list d s = remove_positions s d.
Proof.
  induction s as [|i s IH]; intros d Hs.
  - unfold remove_positions. simpl. symmetry. apply remove_from_none.
    intros j _. apply not_elem_of_nil.
  - apply StronglySorted_cons in Hs as [Hi Hs].
    cbn [foldl]. rewrite IH by done. by apply hapus_largest_first.
Qed.

Lemma sorted_reverse_insert_Permutation x l : sorted_reverse_insert x l ≡ₚ x :: l.
Proof.
  induction l as [|y l IH]; simpl; [done|].
  case_decide; [|done]. by rewrite IH, Permutation_swap.
Qed.

Lemma sorted_reverse_Permutation l : sorted_reverse l ≡ₚ l.
Proof.
  unfold sorted_reverse. induction l as [|x l IH]; simpl; [done|].
  by rewrite sorted_reverse_insert_Permutation, IH.
Qed.

Lemma sorted_reverse_insert_descending x l :
  x ∉ l → StronglySorted (λ a b, b < a)%Z l →
  StronglySorted (λ a b, b < a)%Z (sorted_reverse_insert x l).
Proof.
  intros Hx Hs. induction Hs as [|y l Hs IH Hy]; simpl; [repeat constructor|].
  apply not_elem_of_cons in Hx as [Hxy Hx].
  case_decide as Hlt.
  - constructor; [by apply IH|]. rewrite sorted_reverse_insert_Permutation.
    by constructor.
  - constructor; [by constructor|]. constructor; [lia|].
    eapply Forall_impl; [exact Hy|]. intros z Hz. simpl in Hz. lia.
Qed.

Lemma sorted_reverse_descending l :
  NoDup l → StronglySorted (λ a b, b < a)%Z (sorted_reverse l).
Proof.
  unfold sorted_reverse. induction 1 as [|x l Hx Hnd IH]; simpl; [constructor|].
  apply sorted_reverse_insert_descending; [|done].
  fold (sorted_reverse l). by rewrite sorted_reverse_Permutation.
Qed.

Lemma delete_selected_run (sel : list Z) w :
  NoDup sel → sel ≠ [] →
  ∃ w', delete_selected sel w
        = (Return (StSuccess (String.append "Berhasil menghapus "
                     (String.append (pretty (length sel)) " data!"))), w') ∧
        data_ w' = remove_positions sel (data_ w) ∧
        total_mahasiswa w' = total_mahasiswa w ∧ synced w'.
Proof.
  intros Hnd Hne. unfold delete_selected.
  destruct sel as [|i0 sel0] eqn:Hsel; [done|]. rewrite <-Hsel in *. clear Hne.
  destruct (for_M_hapus_run (sorted_reverse sel) w) as (w1 & Hrun & Hdata & Htotal & _).
  unfold try_except, mbind, M_bind, bind. rewrite Hrun. cbv beta iota.
  rewrite simpan_ke_file_run. cbv beta iota. unfold ret.
  eexists. split; [done|]. cbn [data_ write_file total_mahasiswa].
  split_and!; [|done|done].
  rewrite Hdata, foldl_hapus_descending by by apply sorted_reverse_descending.
  apply remove_from_ext. intros j _. by rewrite sorted_reverse_Permutation.
Qed.

Lemma import_loop_run (imported : list Mahasiswa) : ∀ (existing : gset string) added w,
  unique_nims w → (∀ n, n ∈ existing ↔ n ∈ nim <$> data_ w) →
  ∃ news w',
    import_loop imported existing added w = (Return (added + length news), w') ∧
    data_ w' = data_ w ++ news ∧
    sublist news imported ∧
    unique_nims w' ∧
    (∀ m, m ∈ imported → nim m ∈ nim <$> data_ w') ∧
    total_mahasiswa w' = total_mahasiswa w ∧
    (synced w → synced w').
Proof.
  induction imported as [|m imported IH]; intros existing added w Huniq Hex.
  - exists [], w. rewrite app_nil_r, Nat.add_0_r. split_and!; try done.
    by intros m Hm%elem_of_nil.
  - cbn [import_loop]. case_decide as Hm.
    + unfold mbind, M_bind, bind. rewrite tambah_run. cbv beta iota.
      set (w1 := write_file _ _).
      assert (unique_nims w1) as Huniq1.
      { unfold unique_nims. subst w1. cbn [data_ write_file set_data].
        rewrite fmap_app. apply NoDup_app. split_and!; [done| |apply NoDup_singleton].
        intros x Hx ->%list_elem_of_singleton. apply Hm. by apply Hex. }
      destruct (IH (existing ∪ {[nim m]}) (added + 1) w1 Huniq1)
        as (news & w' & Hrun & Hdata & Hsub & Huniq' & Hall & Htotal & Hsync).
      { intros n. subst w1. cbn [data_ write_file set_data].
        rewrite elem_of_union, elem_of_singleton, fmap_app, elem_of_app, Hex.
        simpl. by rewrite list_elem_of_singleton. }
      exists (m :: news), w'. split_and!.
      * rewrite Hrun. simpl. do 2 f_equal. lia.
      * rewrite Hdata. subst w1. cbn [data_ write_file set_data].
        by rewrite <-app_assoc.
      * by apply sublist_skip.
      * done.
      * intros m' [->|Hm']%elem_of_cons; [|by apply Hall].
        rewrite Hdata. subst w1. cbn [data_ write_file set_data].
        rewrite !fmap_app, !elem_of_app. left. right. simpl. by left.
      * done.
      * intros _. by apply Hsync.
    + destruct (IH existing added w Huniq Hex)
        as (news & w' & Hrun & Hdata & Hsub & Huniq' & Hall & Htotal & Hsync).
      exists news, w'. split_and!; try done.
      * by apply sublist_cons.
      * intros m' [->|Hm']%elem_of_cons; [|by apply Hall].
        rewrite Hdata, fmap_app, elem_of_app. left. apply Hex.
        by destruct (decide (nim m ∈ existing)).
Qed.

Lemma import_data_run items rs w :
  unique_nims w → Forall2 decodes items rs →
  ∃ news w',
    import_data (JList items) w
    = (Return (StSuccess (String.append "Berhasil mengimpor "
                 (String.append (pretty (length news)) " data baru!"))), w') ∧
    data_ w' = data_ w ++ news ∧
    sublist news rs ∧
    unique_nims w' ∧
    (∀ m, m ∈ rs → nim m ∈ nim <$> data_ w') ∧
    total_mahasiswa w' = (total_mahasiswa w + Z.of_nat (length rs))%Z ∧
    synced w'.
Proof.
  intros Huniq Hdec. unfold import_data, get_all.
  unfold try_except, mbind, M_bind, bind.
  rewrite (mapM_from_dict items rs) by done. cbv beta iota.
  unfold get_world at 1, ret at 1. cbv beta iota.
  set (w1 := set_total _ w).
  destruct (import_loop_run rs (list_to_set (nim <$> data_ w1)) 0 w1)
    as (news & w' & Hrun & Hdata & Hsub & Huniq' & Hall & Htotal & _).
  { done. }
  { intros n. by rewrite elem_of_list_to_set. }
  rewrite Hrun. cbv beta iota. rewrite simpan_ke_file_run. cbv beta iota.
  exists news. eexists. split; [done|].
  split_and!.
  - by rewrite Hdata.
  - done.
  - exact Huniq'.
  - exact Hall.
  - cbn [total_mahasiswa write_file]. by rewrite Htotal.
  - reflexivity.
Qed.

Lemma import_data_not_a_list data w :
  (∀ items, data ≠ JList items) →
  import_data data w = (Return (StError "Format file tidak valid!"), w).
Proof. intros Hd. destruct data; try done. by destruct (Hd l). Qed.

(** The loop [for _ in range(n): hapus(0)] drops the first [n] records. *)
Lemma clear_loop_run (r : list nat) : ∀ w,
  ∃ w', for_M (fun _ : nat => hapus 0) r w = (Return tt, w') ∧
        data_ w' = drop (length r) (data_ w) ∧
        total_mahasiswa w' = total_mahasiswa w.
Proof.
  induction r as [|k r IH]; intros w.
  - exists w. by rewrite drop_0.
  - cbn [for_M]. unfold mbind, M_bind, bind.
    destruct (data_ w) as [|x d] eqn:Hdata.
    + rewrite hapus_run_invalid by (rewrite Hdata; simpl; lia). cbv beta iota.
      destruct (IH w) as (w' & Hrun & Hd & Htotal).
      exists w'. split_and!; [done| |done]. by rewrite Hd, Hdata, !drop_nil.
    + rewrite hapus_run_valid by (rewrite Hdata; simpl; lia). cbv beta iota.
      rewrite Hdata. simpl delete.
      destruct (IH (write_file (JList (to_dict <$> d)) (set_data d w)))
        as (w' & Hrun & Hd & Htotal).
      exists w'. split_and!; [done| |done]. by rewrite Hd.
Qed.

(** The loop that constructs and adds one record per pair. *)
Lemma add_loop_run (args : list (string * string)) : ∀ w,
  ∃ w', for_M (fun p : string * string =>
                 let '(nama_, nim_) := p in
                 mhs ← Mahasiswa_init nama_ nim_; tambah mhs) args w
        = (Return tt, w') ∧
        data_ w' = data_ w ++
                   imap (fun i p => mkMahasiswa (total_mahasiswa w + 1 + Z.of_nat i) p.1 p.2)
                        args ∧
        total_mahasiswa w' = (total_mahasiswa w + Z.of_nat (length args))%Z.
Proof.
  induction args as [|[n v] args IH]; intros w.
  - exists w. simpl. rewrite app_nil_r, Z.add_0_r. done.
  - cbn [for_M]. unfold mbind, M_bind, bind.
    rewrite Mahasiswa_init_run. cbv beta iota. rewrite tambah_run. cbv beta iota.
    set (w1 := write_file _ _).
    destruct (IH w1) as (w' & Hrun & Hdata & Htotal).
    exists w'. split_and!; [done| |].
    + rewrite Hdata. subst w1. cbn [data_ write_file set_data set_total total_mahasiswa].
      rewrite <-app_assoc. f_equal. cbn [imap]. simpl. f_equal.
      * by rewrite Z.add_0_r.
      * apply imap_ext. intros i [n' v'] _. simpl. f_equal. lia.
    + rewrite Htotal. subst w1. cbn [write_file set_data set_total total_mahasiswa].
      simpl length. lia.
Qed.

Lemma load_sample_data_run w :
  ∃ w', _load_sample_data w = (Return (StSuccess "Data sample berhasil dimuat!"), w') ∧
        data_ w'
        = imap (fun i p => mkMahasiswa (total_mahasiswa w + 1 + Z.of_nat i) p.1 p.2)
               sample_data ∧
        total_mahasiswa w' = (total_mahasiswa w + 31)%Z ∧
        synced w'.
Proof.
  unfold _load_sample_data, get_count.
  unfold try_except, mbind, M_bind, bind.
  unfold get_world at 1, ret at 1. cbv beta iota.
  destruct (clear_loop_run (seq 0 (length (data_ w))) w) as (w1 & Hrun1 & Hd1 & Ht1).
  rewrite Hrun1. cbv beta iota.
  rewrite length_seq, drop_all in Hd1.
  destruct (add_loop_run sample_data w1) as (w2 & Hrun2 & Hd2 & Ht2).
  unfold mbind, M_bind, bind in Hrun2. rewrite Hrun2. cbv beta iota. rewrite simpan_ke_file_run. cbv beta iota.
  eexists. split; [done|]. cbn [data_ write_file total_mahasiswa].
  split_and!.
  - by rewrite Hd2, Hd1, Ht1.
  - rewrite Ht2, Ht1. reflexivity.
  - reflexivity.
Qed.

End forms.

Import App.

(** X19. The input form leaves the registration numbers of the store
    distinct. It either shows an error and changes nothing, or, for a name
    and a registration number that pass [Validator] and a number that no
    record has yet, adds one record with the next id at the end and writes
    the file twice. It never raises. *)
Theorem input_form_keeps_nims_unique (nama_ nim_ : string) (w : World) :
  unique_nims w →
  ∃ r w', input_form_submit nama_ nim_ w = (Return r, w') ∧ unique_nims w' ∧
    (((∃ msg, r = StError msg) ∧ w' = w)
     ∨ r = StSuccess (String.append "Data " (String.append nama_ " berhasil ditambahkan!")) ∧
       Validator.validate_nama nama_ = (true, EmptyString) ∧
       Validator.validate_nim nim_ = (true, EmptyString) ∧
       ¬ (nim_ ∈ nim <$> data_ w) ∧
       data_ w' = data_ w ++ [mkMahasiswa (total_mahasiswa w + 1) nama_ nim_] ∧
       total_mahasiswa w' = (total_mahasiswa w + 1)%Z ∧
       synced w' ∧ writes w' = S (S (writes w))).
Proof. apply input_form_submit_run. Qed.

Lemma input_form_keeps_nims_unique_witness :
  let w := mkWorld 3 [Samples.budi; Samples.andi] None 0 in
  ∃ r w', input_form_submit "Citra Dewi" "241011400097" w = (Return r, w') ∧
          unique_nims w'.
Proof.
  intros w.
  assert (unique_nims w) as Huniq.
  { unfold unique_nims. simpl. apply (bool_decide_unpack _). vm_compute. exact I. }
  destruct (input_form_keeps_nims_unique "Citra Dewi" "241011400097" w Huniq)
    as (r & w' & Hrun & Huniq' & _).
  exists r, w'. split; [exact Hrun|exact Huniq'].
Defined.

(** X20. The edit form, for a store with distinct registration numbers and
    a position inside the list, leaves them distinct and never leaves a
    record half changed: it either shows an error and changes nothing
    (also for a name of blanks, which passes [Validator] and makes the
    setter raise), or replaces the name and the registration number of the
    record and keeps its id. It never raises. *)
Theorem edit_form_all_or_nothing (index_ : nat) (new_nama new_nim : string)
    (w : World) (old : Mahasiswa) :
  unique_nims w → data_ w !! index_ = Some old →
  ∃ r w', edit_form_submit index_ new_nama new_nim w = (Return r, w') ∧ unique_nims w' ∧
    ((((∃ msg, r = StError msg) ∨ (∃ p e, r = StErrorExn p e)) ∧ w' = w)
     ∨ r = StSuccess "Data berhasil diupdate!" ∧
       data_ w' = <[index_ := mkMahasiswa (id old) new_nama new_nim]> (data_ w) ∧
       Validator.validate_nama new_nama = (true, EmptyString) ∧
       Validator.validate_nim new_nim = (true, EmptyString) ∧
       total_mahasiswa w' = total_mahasiswa w ∧
       synced w' ∧ writes w' = S (S (writes w))).
Proof. apply edit_form_submit_run. Qed.

Lemma edit_form_all_or_nothing_witness :
  let w := mkWorld 3 [Samples.budi; Samples.andi] None 0 in
  ∃ r w', edit_form_submit 1 "Andi S." "241011400097" w = (Return r, w') ∧
          unique_nims w'.
Proof.
  intros w.
  assert (unique_nims w) as Huniq.
  { unfold unique_nims. simpl. apply (bool_decide_unpack _). vm_compute. exact I. }
  destruct (edit_form_all_or_nothing 1 "Andi S." "241011400097" w Samples.andi Huniq eq_refl)
    as (r & w' & Hrun & Huniq' & _).
  exists r, w'. split; [exact Hrun|exact Huniq'].
Defined.

(** X21. The delete button with distinct positions ticked removes exactly
    the records at these positions, whatever the order in which they are
    given, and keeps the others in their order: [hapus] is applied to the
    largest position first, so that no position still to be deleted has
    moved. Positions outside the list are passed over. *)
Theorem delete_selected_removes_positions (selected_indices : list Z) (w : World) :
  NoDup selected_indices → selected_indices ≠ [] →
  ∃ w', delete_selected selected_indices w
        = (Return (StSuccess (String.append "Berhasil menghapus "
                     (String.append (pretty (length selected_indices)) " data!"))), w') ∧
        data_ w' = remove_positions selected_indices (data_ w) ∧
        total_mahasiswa w' = total_mahasiswa w ∧ synced w'.
Proof. apply delete_selected_run. Qed.

Lemma delete_selected_removes_positions_witness :
  let w := mkWorld 3 [Samples.budi; Samples.budi2; Samples.andi] None 0 in
  ∃ w', delete_selected [0; 2]%Z w
        = (Return (StSuccess "Berhasil menghapus 2 data!"), w') ∧
        data_ w' = [Samples.budi2].
Proof.
  intros w.
  assert (NoDup [0; 2]%Z) as Hnd by (apply (bool_decide_unpack _); vm_compute; exact I).
  assert ([0; 2]%Z ≠ []) as Hne by discriminate.
  destruct (delete_selected_removes_positions [0; 2]%Z w Hnd Hne)
    as (w' & Hrun & Hdata & _).
  exists w'. split; [exact Hrun|exact Hdata].
Defined.

(** X22. The import of a document that is a list of records, into a store
    with distinct registration numbers, leaves them distinct: it adds at
    the end, in their order and with the ids they have in the document,
    some of the records, so that afterwards every registration number of
    the document is in the store; it reports how many it added, writes the
    file, and leaves the counter advanced by the number of records in the
    document. A document that is not a list is turned down and nothing
    changes. *)
Theorem import_keeps_nims_unique (items : list json) (rs : list Mahasiswa) (w : World) :
  unique_nims w → Forall2 decodes items rs →
  (∃ news w',
     import_data (JList items) w
     = (Return (StSuccess (String.append "Berhasil mengimpor "
                  (String.append (pretty (length news)) " data baru!"))), w') ∧
     data_ w' = data_ w ++ news ∧
     sublist news rs ∧
     unique_nims w' ∧
     (∀ m, m ∈ rs → nim m ∈ nim <$> data_ w') ∧
     total_mahasiswa w' = (total_mahasiswa w + Z.of_nat (length rs))%Z ∧
     synced w')
  ∧ ∀ data, (∀ items', data ≠ JList items') →
            import_data data w = (Return (StError "Format file tidak valid!"), w).
Proof.
  intros Huniq Hdec. split; [by apply import_data_run|].
  intros data Hd. by apply import_data_not_a_list.
Qed.

Lemma import_keeps_nims_unique_witness :
  let w := mkWorld 3 [Samples.budi] None 0 in
  let rs := [mkMahasiswa 9 "Xena" "300"; mkMahasiswa 9 "Yuli" "5"; mkMahasiswa 10 "Zaki" "5"] in
  ∃ (news : list Mahasiswa) w',
    import_data (JList (to_dict <$> rs)) w
    = (Return (StSuccess (String.append "Berhasil mengimpor "
                 (String.append (pretty (length news)) " data baru!"))), w') ∧
    unique_nims w'.
Proof.
  intros w rs.
  assert (unique_nims w) as Huniq.
  { unfold unique_nims. simpl. apply (bool_decide_unpack _). vm_compute. exact I. }
  assert (Forall2 decodes (to_dict <$> rs) rs) as Hdec.
  { repeat constructor; apply to_dict_decodes. }
  destruct (import_keeps_nims_unique (to_dict <$> rs) rs w Huniq Hdec)
    as [(news & w' & Hrun & _ & _ & Huniq' & _) _].
  exists news, w'. split; [exact Hrun|exact Huniq'].
Defined.

Lemma sample_data_length : length sample_data = 31.
Proof. reflexivity. Qed.

Lemma sample_nims_NoDup : NoDup (sample_data.*2).
Proof. apply (bool_decide_unpack _). vm_compute. exact I. Qed.

Lemma sample_data_valid :
  Forall (fun p : string * string =>
            Validator.validate_nama p.1 = (true, EmptyString) ∧
            Validator.validate_nim p.2 = (true, EmptyString)) sample_data.
Proof.
  apply Forall_forall. intros p Hp.
  assert (Hb : forallb (fun p : string * string =>
            bool_decide (Validator.validate_nama p.1 = (true, EmptyString)) &&
            bool_decide (Validator.validate_nim p.2 = (true, EmptyString)))
            sample_data = true) by (vm_compute; reflexivity).
  rewrite forallb_forall in Hb. apply list_elem_of_In in Hp.
  apply Hb in Hp. apply andb_prop in Hp as [H1 H2].
  split; eapply bool_decide_eq_true_1; eassumption.
Qed.

(** X23. [_load_sample_data] returns from every state of the store: it
    empties the list with as many [hapus(0)] as there are records, and then
    holds the 31 sample records in their order, with the ids that follow
    the counter (which is not set back), with distinct registration numbers
    and with names and registration numbers that pass [Validator]; the file
    holds the same. *)
Theorem load_sample_data_replaces_the_list (w : World) :
  ∃ w', _load_sample_data w = (Return (StSuccess "Data sample berhasil dimuat!"), w') ∧
        data_ w'
        = imap (fun i p => mkMahasiswa (total_mahasiswa w + 1 + Z.of_nat i) p.1 p.2)
               sample_data ∧
        length (data_ w') = 31 ∧
        total_mahasiswa w' = (total_mahasiswa w + 31)%Z ∧
        unique_nims w' ∧
        Forall (fun m => Validator.validate_nama (nama m) = (true, EmptyString) ∧
                         Validator.validate_nim (nim m) = (true, EmptyString))
               (data_ w') ∧
        synced w'.
Proof.
  destruct (load_sample_data_run w) as (w' & Hrun & Hdata & Htotal & Hsync).
  exists w'.
  split; [exact Hrun|]. split; [exact Hdata|].
  split; [rewrite Hdata, length_imap; exact sample_data_length|].
  split; [exact Htotal|].
  split; [|split; [|exact Hsync]].
  - unfold unique_nims. rewrite Hdata, fmap_imap.
    rewrite (imap_ext _ (const snd)) by (intros; reflexivity).
    rewrite imap_const. exact sample_nims_NoDup.
  - rewrite Hdata. apply Forall_forall. intros m Hm.
    apply elem_of_lookup_imap_1 in Hm as (i & p & -> & Hp).
    apply list_elem_of_lookup_2 in Hp.
    exact (proj1 (Forall_forall _ _) sample_data_valid p Hp).
Qed.
